(** * tatoebatools: the table reader and the multi-destination buffer

    A shallow embedding of [tatoebatools/datafile.py] (with the callers in
    [tatoebatools/links.py]) and the properties of its reader
    ([custom_reader], [unsplit_field], [DataFile.__iter__]), of its writer
    ([Buffer]) and of [DataFile.split].

    Conventions of the embedding:
    - a Python [str] is a [string], the sequence of the bytes of its
      UTF-8 encoding; a csv delimiter is one character, an [ascii]; a row
      is a [list string];
    - Python integers are [Z]; list indices and slice bounds keep Python's
      treatment of negative and out-of-range values;
    - a raised exception is a value of [exn]; a function that can raise
      returns a [result];
    - a generator is the finite trace of what it does when it is driven to
      its end: the records it yields and the log records it emits, in
      order, and the exception that ends it, if any;
    - the directory a [DataFile] and its [Buffer] work in is a finite map
      from file names to the lines of each file. *)

From Stdlib Require Import ZArith Ascii String List.
From stdpp Require Import gmap strings list fin_maps.

Local Open Scope string_scope.
Local Open Scope list_scope.
Local Open Scope Z_scope.

(** ** Python values *)

Definition row := list string.

Inductive exn :=
| NoDataFile
| TypeError
| IndexError
| ValueError
| RuntimeError.

Inductive result (A : Type) :=
| Ok (a : A)
| Raise (e : exn).
Arguments Ok {A} a.
Arguments Raise {A} e.

#[global] Instance result_ret : MRet result := λ A a, Ok a.
#[global] Instance result_bind : MBind result := λ A B k r,
  match r with
  | Ok a => k a
  | Raise e => Raise e
  end.

Definition tab : ascii := "009"%char.

(** The string of one character. *)
Definition str1 (c : ascii) : string := String c EmptyString.

(** [delimiter.join(fields)] *)
Fixpoint str_join (sep : string) (fields : list string) : string :=
  match fields with
  | [] => EmptyString
  | f :: rest =>
      match rest with
      | [] => f
      | _ :: _ => f +:+ sep +:+ str_join sep rest
      end
  end.

(** The fields of one physical line cut at every delimiter, nothing quoted
    and nothing escaped: a line with [n] delimiters has [n + 1] fields. *)
Fixpoint str_split (d : ascii) (s : string) : list string :=
  match s with
  | EmptyString => [EmptyString]
  | String c s' =>
      if Ascii.eqb c d then EmptyString :: str_split d s'
      else match str_split d s' with
           | f :: fs => String c f :: fs
           | [] => [String c EmptyString]
           end
  end.

(** One row of [csv.reader(f, delimiter=d, quoting=csv.QUOTE_NONE)]: the
    line cut at the delimiters; an empty line is the empty row. *)
Definition csv_parse_line (d : ascii) (line : string) : row :=
  match line with
  | EmptyString => []
  | _ => str_split d line
  end.

(** *** Lists indexed the Python way *)

Section PyList.
Context {A : Type}.

(** [l[i]] as a position, [None] where Python raises [IndexError]. *)
Definition py_index (l : list A) (i : Z) : option nat :=
  let n := Z.of_nat (length l) in
  let j := if i <? 0 then i + n else i in
  if (0 <=? j) && (j <? n) then Some (Z.to_nat j) else None.

(** A slice bound: negative bounds count from the end, then the bound is
    clipped to [0 .. len(l)]. *)
Definition py_bound (l : list A) (i : Z) : nat :=
  let n := Z.of_nat (length l) in
  let j := if i <? 0 then i + n else i in
  Z.to_nat (Z.min n (Z.max 0 j)).

(** [l[i:j]] *)
Definition py_slice (l : list A) (i j : Z) : list A :=
  take (py_bound l j - py_bound l i)%nat (drop (py_bound l i) l).

(** [l[i] = x] *)
Definition py_setitem (l : list A) (i : Z) (x : A) : result (list A) :=
  match py_index l i with
  | Some k => Ok (<[k := x]> l)
  | None => Raise IndexError
  end.

(** [del l[i:j]] *)
Definition py_delslice (l : list A) (i j : Z) : list A :=
  take (py_bound l i) l ++ drop (py_bound l i `max` py_bound l j)%nat l.
End PyList.

(** ** [unsplit_field] *)

Definition unsplit_field (row0 : row) (nb_cols : Z) (delimiter : ascii)
    (index_field : Z) : result row :=
  let index_field :=
    if index_field <? 0 then nb_cols + index_field else index_field in
  let nb_extra := Z.of_nat (length row0) - nb_cols in
  if 0 <? nb_extra then
    let fields_to_join :=
      py_slice row0 index_field (index_field + nb_extra + 1) in
    row1 ← py_setitem row0 index_field
             (str_join (str1 delimiter) fields_to_join);
    Ok (py_delslice row1 (index_field + 1) (index_field + nb_extra + 1))
  else Ok row0.

(** ** Logging and generators *)

Inductive level := DEBUG | INFO | WARNING.

Inductive message :=
| MsgDatafileNotFound (name : string)
| MsgSplitting (name : string)
| MsgSaveError (part_name : string)
| MsgRowSkipped (r : row)
| MsgNoColumn (r : row) (col : Z)
| MsgNoLocalData (table source_language target_language : string).

Definition log_record : Type := level * message.

Inductive event (A : Type) :=
| Yield (a : A)
| Log (l : log_record).
Arguments Yield {A} a.
Arguments Log {A} l.

(** What a generator does when driven to its end, and how it ends:
    [None] when it is exhausted, [Some e] when [e] is raised out of it. *)
Definition trace (A : Type) : Type := list (event A) * option exn.

Definition emit {A} (e : event A) (t : trace A) : trace A := (e :: t.1, t.2).

Definition yields {A} (t : trace A) : list A :=
  omap (λ e, match e with Yield a => Some a | Log _ => None end) t.1.


(** ** [custom_reader] *)

(** [if text_col:] is false for [None] and for column [0]. *)
Definition text_col_set (text_col : option Z) : option Z :=
  match text_col with
  | Some tc => if tc =? 0 then None else Some tc
  | None => None
  end.

(** [real_row[-1] += s] on a non-empty [real_row]. *)
Definition append_to_last (real_row : row) (s : string) : row :=
  match reverse real_row with
  | last_field :: before => reverse before ++ [last_field +:+ s]
  | [] => []
  end.

Definition nonempty {A} (l : list A) : bool :=
  match l with [] => false | _ :: _ => true end.

(** The [for row in reader] loop of [custom_reader], with the accumulating
    [real_row] as its state; the two trailing lines of the function are
    the case of no row left. *)
Fixpoint reader_loop (nb_cols : Z) (delimiter : ascii) (text_col : option Z)
    (rows : list row) (real_row : row) : trace row :=
  match rows with
  | [] => if nonempty real_row then ([Yield real_row], None) else ([], None)
  | row0 :: rest =>
      let regrouped :=
        match text_col_set text_col with
        | Some tc => unsplit_field row0 nb_cols delimiter tc
        | None => Ok row0
        end in
      match regrouped with
      | Raise e => ([], Some e)
      | Ok row1 =>
          if Z.of_nat (length row1) =? nb_cols then
            let continue := reader_loop nb_cols delimiter text_col rest row1 in
            if nonempty real_row then emit (Yield real_row) continue
            else continue
          else if (length row1 =? 1)%nat && nonempty real_row then
            reader_loop nb_cols delimiter text_col rest
              (append_to_last real_row (" " +:+ hd EmptyString row1))
          else if negb (nonempty row1) && nonempty real_row then
            reader_loop nb_cols delimiter text_col rest
              (append_to_last real_row " ")
          else
            emit (Log (DEBUG, MsgRowSkipped row1))
              (reader_loop nb_cols delimiter text_col rest real_row)
      end
  end.

(** [custom_reader] over the physical lines of the open file.  [nb_cols]
    is the length of the first row; [next(reader)] on a file with no line
    raises [StopIteration] inside the generator, which leaves it as a
    [RuntimeError] (PEP 479).  After [seek(0)] every line, the first one
    included, goes through the loop. *)
Definition custom_reader (lines : list string) (delimiter : ascii)
    (text_col : option Z) : trace row :=
  match lines with
  | [] => ([], Some RuntimeError)
  | first :: _ =>
      let nb_cols := Z.of_nat (length (csv_parse_line delimiter first)) in
      reader_loop nb_cols delimiter text_col
        (csv_parse_line delimiter <$> lines) []
  end.

(** ** The interpreter and the operating system

    What the code takes from outside the repository: the size
    [sys.getsizeof] reports for a queue, the line [csv.writer] writes for a
    row, and [int] on a string ([None] where it raises [ValueError]). *)

Class Platform := {
  getsizeof : list row → Z;
  writerow : ascii → row → string;
  py_int : string → option Z;
}.

(** How the next attempt to open a file for appending and write to it
    ends: well, with [OSError] before anything is written, or with
    [OSError] after the first [written] lines reached the file. *)
Inductive io_outcome :=
| IoOk
| IoOpenError
| IoWriteError (written : nat).

(** The directory, the outcomes of the coming write attempts (when the
    list is exhausted every attempt ends well) and the log so far. *)
Record world := World {
  files : gmap string (list string);
  pending_io : list io_outcome;
  log : list log_record;
}.

Definition set_files (fs : gmap string (list string)) (w : world) : world :=
  World fs (pending_io w) (log w).

Definition add_log (l : log_record) (w : world) : world :=
  World (files w) (pending_io w) (log w ++ [l]).

Definition next_io (w : world) : io_outcome * world :=
  match pending_io w with
  | [] => (IoOk, w)
  | o :: rest => (o, World (files w) rest (log w))
  end.

(** [Path.rename]: the target is replaced when it exists. *)
Definition rename (src dst : string) (fs : gmap string (list string))
    : gmap string (list string) :=
  match fs !! src with
  | Some content => <[dst := content]> (delete src fs)
  | None => fs
  end.

(** [str.rfind] of one character. *)
Fixpoint rfind (c : ascii) (s : string) : option nat :=
  match s with
  | EmptyString => None
  | String a s' =>
      match rfind c s' with
      | Some i => Some (S i)
      | None => if Ascii.eqb a c then Some 0%nat else None
      end
  end.

(** [PurePath.stem]: the name without its last suffix. *)
Definition stem (name : string) : string :=
  match rfind "." name with
  | Some i =>
      if (0 <? i)%nat && (i <? String.length name - 1)%nat
      then substring 0 i name else name
  | None => name
  end.

(** *** A [dict] with string keys, in insertion order *)

Section Dict.
Context {V : Type}.

Fixpoint dict_get (k : string) (d : list (string * V)) : option V :=
  match d with
  | [] => None
  | (k', v) :: d' => if decide (k' = k) then Some v else dict_get k d'
  end.

Fixpoint dict_alter (f : V → V) (k : string) (d : list (string * V))
    : list (string * V) :=
  match d with
  | [] => []
  | (k', v) :: d' =>
      if decide (k' = k) then (k', f v) :: d'
      else (k', v) :: dict_alter f k d'
  end.

(** [d[k] = v] *)
Definition dict_set (k : string) (v : V) (d : list (string * V))
    : list (string * V) :=
  match dict_get k d with
  | Some _ => dict_alter (λ _, v) k d
  | None => d ++ [(k, v)]
  end.

Definition dict_keys (d : list (string * V)) : list string := d.*1.
End Dict.

(** ** [Buffer] *)

Module Buffer.

Record t := Make {
  _fps : gset string;
  _dm : ascii;
  _max : Z;
  _data : list (string * list row);
}.

Definition set_data (d : list (string * list row)) (b : t) : t :=
  Make (_fps b) (_dm b) (_max b) d.

Definition set_fps (fps : gset string) (b : t) : t :=
  Make fps (_dm b) (_max b) (_data b).

(** [Buffer(out_dir, delimiter, max_size)]; the directory exists from
    here on, and [_fps] is its listing at this moment. *)
Definition init (w : world) (delimiter : ascii) (max_size : Z) : t :=
  Make (dom (files w)) delimiter max_size [].

Definition default_max_size : Z := 10000.

Definition part_name (out_fname : string) : string := out_fname +:+ ".part".

(** The queue [self._data[out_fname]]. *)
Definition queue (out_fname : string) (b : t) : list row :=
  default [] (dict_get out_fname (_data b)).

Section WithPlatform.
Context `{!Platform}.

(** [_save]: both callers pass a key of [_data]. *)
Definition _save (out_fname : string) (end_ : bool) (s : world * t)
    : world * t :=
  let '(w, b) := s in
  match dict_get out_fname (_data b) with
  | None => s
  | Some data =>
      let out_fp := part_name out_fname in
      let lines := writerow (_dm b) <$> data in
      let old := default [] (files w !! out_fp) in
      match next_io w with
      | (IoOk, w1) =>
          let fs1 := <[out_fp := old ++ lines]> (files w1) in
          let b1 := set_data (dict_alter (λ _, []) out_fname (_data b)) b in
          let fs2 := if end_ then rename out_fp (stem out_fp) fs1 else fs1 in
          (set_files fs2 w1, b1)
      | (IoOpenError, w1) =>
          (add_log (DEBUG, MsgSaveError out_fp) w1, b)
      | (IoWriteError written, w1) =>
          let fs1 := <[out_fp := old ++ take written lines]> (files w1) in
          (add_log (DEBUG, MsgSaveError out_fp) (set_files fs1 w1), b)
      end
  end.

(** [self._data.setdefault(out_fname, []).append(elt)] *)
Definition setdefault_append (out_fname : string) (elt : row)
    (d : list (string * list row)) : list (string * list row) :=
  match dict_get out_fname d with
  | Some _ => dict_alter (λ q, q ++ [elt]) out_fname d
  | None => d ++ [(out_fname, [elt])]
  end.

(** The first lines of [add]: a destination not seen yet gets an empty
    queue, and its out file is removed when it was in the directory at
    construction. *)
Definition first_touch (out_fname : string) (s : world * t) : world * t :=
  let '(w, b) := s in
  match dict_get out_fname (_data b) with
  | Some _ => s
  | None =>
      let b1 := set_data (dict_set out_fname [] (_data b)) b in
      if decide (out_fname ∈ _fps b)
      then (set_files (delete out_fname (files w)) w,
            set_fps (_fps b ∖ {[out_fname]}) b1)
      else (w, b1)
  end.

(** The queue as the size check of [add] sees it. *)
Definition appended (elt : row) (out_fname : string) (s : world * t)
    : world * t :=
  let '(w, b) := first_touch out_fname s in
  (w, set_data (setdefault_append out_fname elt (_data b)) b).

Definition add (elt : row) (out_fname : string) (s : world * t)
    : world * t :=
  let s1 := appended elt out_fname s in
  if getsizeof (queue out_fname s1.2) >? _max s1.2
  then _save out_fname false s1
  else s1.

Definition clear (s : world * t) : world * t :=
  let '(w, b) :=
    foldl (λ s out_fname, _save out_fname true s) s (dict_keys (_data s.2))
  in (w, set_data [] b).

Definition out_filenames (b : t) : list string := dict_keys (_data b).

(** A run: the [add] calls in order. *)
Definition adds (calls : list (row * string)) (s : world * t) : world * t :=
  foldl (λ s call, add call.1 call.2 s) s calls.
End WithPlatform.

End Buffer.

(** ** [get_mapped_fields], [get_byte_size_of_row] *)

(** The [index] dictionary: keys are strings or, with [int_key], integers. *)
Abbreviation index_dict := (gmap (string + Z) string).

(** [if index:] holds for a dictionary that is not empty. *)
Definition index_set (index : option index_dict) : option index_dict :=
  match index with
  | Some d => if decide (d = ∅) then None else Some d
  | None => None
  end.

Section Mapping.
Context `{!Platform}.

(** The loop of [get_mapped_fields], with [mapped_fields] as its state.
    A mapped field is a string or Python's [None]. *)
Fixpoint mapped_loop (row0 : row) (columns : list Z)
    (index : option index_dict) (int_key : bool)
    (mapped_fields : list (option string))
    : list log_record * result (list (option string)) :=
  match columns with
  | [] => ([], Ok mapped_fields)
  | col :: rest =>
      if Z.of_nat (length row0) >? col then
        match py_index row0 col ≫= (row0 !!.) with
        | None => ([], Raise IndexError)
        | Some val =>
            match index_set index with
            | Some d =>
                let key : result (string + Z) :=
                  if int_key then
                    match py_int val with
                    | Some z => Ok (inr z)
                    | None => Raise ValueError
                    end
                  else Ok (inl val) in
                match key with
                | Ok k =>
                    mapped_loop row0 rest index int_key
                      (mapped_fields ++ [d !! k])
                | Raise e => ([], Raise e)
                end
            | None =>
                mapped_loop row0 rest index int_key
                  (mapped_fields ++ [Some val])
            end
        end
      else
        let '(l, r) :=
          mapped_loop row0 rest index int_key (mapped_fields ++ [Some EmptyString]) in
        ((DEBUG, MsgNoColumn row0 col) :: l, r)
  end.

Definition get_mapped_fields (row0 : row) (columns : list Z)
    (index : option index_dict) (int_key : bool)
    : list log_record * result (list (option string)) :=
  mapped_loop row0 columns index int_key [].
End Mapping.

(** [bool(v)] of a mapped field. *)
Definition truthy (v : option string) : bool :=
  match v with
  | Some EmptyString | None => false
  | Some (String _ _) => true
  end.

(** [all(mapped_fields)] *)
Definition all (mapped_fields : list (option string)) : bool :=
  forallb truthy mapped_fields.

(** The strings of a list without [None]; [str.join] raises [TypeError]
    on any other list. *)
Definition all_str (vs : list (option string)) : result (list string) :=
  match mapM id vs with
  | Some l => Ok l
  | None => Raise TypeError
  end.

Definition get_byte_size_of_row (row0 : row) (delimiter : ascii) : Z :=
  Z.of_nat (String.length (str_join (str1 delimiter) row0 +:+ str1 "010")).

(** A call that passes some of the parameters of a function whose
    parameters are all required: a parameter left without an argument
    ([None]) makes the call raise [TypeError] before the body runs. *)
Definition call4 {A B C D R} (f : A → B → C → D → R)
    (a : option A) (b : option B) (c : option C) (d : option D) : result R :=
  match a, b, c, d with
  | Some a, Some b, Some c, Some d => Ok (f a b c d)
  | _, _, _, _ => Raise TypeError
  end.

Definition call2 {A B R} (f : A → B → R) (a : option A) (b : option B)
    : result R :=
  match a, b with
  | Some a, Some b => Ok (f a b)
  | _, _ => Raise TypeError
  end.

(** ** [DataFile] *)

Module DataFile.

(** [_fp] is the name of the file in its directory. *)
Record t := Make {
  _fp : string;
  _dm : ascii;
  _tc : option Z;
}.

Definition name (df : t) : string := _fp df.
Definition stem (df : t) : string := stem (_fp df).

(** [__iter__] *)
Definition iter (df : t) (fs : gmap string (list string)) : trace row :=
  match fs !! _fp df with
  | None => ([Log (DEBUG, MsgDatafileNotFound (_fp df))], Some NoDataFile)
  | Some lines => custom_reader lines (_dm df) (_tc df)
  end.

Definition _get_out_filename (df : t) (mapped_fields : list (option string))
    : result string :=
  fields ← all_str mapped_fields;
  let mapped_fields_string := str_join "-" fields in
  let ext := if Ascii.eqb (_dm df) tab then "tsv" else "csv" in
  Ok (mapped_fields_string +:+ "_" +:+ stem df +:+ "." +:+ ext).

Section WithPlatform.
Context `{!Platform}.

Definition logged (ls : list log_record) (s : world * Buffer.t)
    : world * Buffer.t :=
  (foldl (λ w l, add_log l w) s.1 ls, s.2).

(** The body of the loop of [split] for one row.  Both helper calls
    pass the row alone; the progress bar, which only takes the result
    of the second, is left out. *)
Definition split_body (df : t) (row0 : row) (s : world * Buffer.t)
    : (world * Buffer.t) * option exn :=
  match call4 get_mapped_fields (Some row0) None None None with
  | Raise e => (s, Some e)
  | Ok (ls, Raise e) => (logged ls s, Some e)
  | Ok (ls, Ok mapped_fields) =>
      let s1 := logged ls s in
      let routed :=
        if all mapped_fields then
          match _get_out_filename df mapped_fields with
          | Ok fname => (Buffer.add row0 fname s1, None)
          | Raise e => (s1, Some e)
          end
        else (s1, None) in
      match routed with
      | (s2, Some e) => (s2, Some e)
      | (s2, None) =>
          match call2 get_byte_size_of_row (Some row0) None with
          | Ok _ => (s2, None)
          | Raise e => (s2, Some e)
          end
      end
  end.

(** [for row in self:] over what the reader does, in order; an
    exception raised by the body ends the loop and leaves the reader
    where it is. *)
Fixpoint split_loop (df : t) (events : list (event row))
    (ending : option exn) (s : world * Buffer.t)
    : (world * Buffer.t) * option exn :=
  match events with
  | [] => (s, ending)
  | Log l :: rest => split_loop df rest ending (add_log l s.1, s.2)
  | Yield row0 :: rest =>
      match split_body df row0 s with
      | (s1, Some e) => (s1, Some e)
      | (s1, None) => split_loop df rest ending s1
      end
  end.

(** [split]; its parameters [columns], [index] and [int_key] are the
    ones of the source.  The result is the world the call leaves and
    the exception it raises, if any. *)
Definition split (df : t) (columns : list Z) (index : option index_dict)
    (int_key : bool) (w : world) : world * option exn :=
  let w1 := add_log (INFO, MsgSplitting (name df)) w in
  let buffer := Buffer.init w1 (_dm df) Buffer.default_max_size in
  let reading := iter df (files w1) in
  match split_loop df reading.1 reading.2 (w1, buffer) with
  | (s, Some e) => (s.1, Some e)
  | (s, None) => ((Buffer.clear s).1, None)
  end.
End WithPlatform.

End DataFile.

(** ** [Links] *)

Module Links.

Record t := Make {
  _src_lg : string;
  _tgt_lg : string;
}.

Record Link := MakeLink {
  _src_id : string;
  _tgt_id : string;
}.

Definition _table : string := "links".

Definition filename (lk : t) : string :=
  _src_lg lk +:+ "-" +:+ _tgt_lg lk +:+ "_" +:+ _table +:+ ".tsv".

(** The row turned into a dictionary under the two field names of
    [__iter__] and passed to [Link] as keyword arguments: a third field
    has no name, and a missing one leaves [Link] without an argument. *)
Definition make_link (row0 : row) : result Link :=
  match row0 with
  | [sentence_id; translation_id] => Ok (MakeLink sentence_id translation_id)
  | _ :: _ :: _ :: _ => Raise IndexError
  | _ => Raise TypeError
  end.

(** The loop of [__iter__] over what the data file does, and the
    [except NoDataFile] clause around it. *)
Fixpoint iter_loop (lk : t) (events : list (event row))
    (ending : option exn) : trace Link :=
  match events with
  | [] =>
      match ending with
      | Some NoDataFile =>
          ([Log (WARNING, MsgNoLocalData _table (_src_lg lk) (_tgt_lg lk))],
           None)
      | _ => ([], ending)
      end
  | Log l :: rest => emit (Log l) (iter_loop lk rest ending)
  | Yield row0 :: rest =>
      match make_link row0 with
      | Ok link => emit (Yield link) (iter_loop lk rest ending)
      | Raise e => ([], Some e)
      end
  end.

(** [__iter__], in the directory of the links table. *)
Definition iter (lk : t) (fs : gmap string (list string)) : trace Link :=
  let reading := DataFile.iter (DataFile.Make (filename lk) tab None) fs in
  iter_loop lk reading.1 reading.2.

(** [Link.sentence_id] and [Link.translation_id]: the ids as integers. *)
Definition sentence_id `{!Platform} (link : Link) : result Z :=
  match py_int (_src_id link) with
  | Some z => Ok z
  | None => Raise ValueError
  end.

Definition translation_id `{!Platform} (link : Link) : result Z :=
  match py_int (_tgt_id link) with
  | Some z => Ok z
  | None => Raise ValueError
  end.

(** The loop of [ids] over what [__iter__] does, with the two sets as its
    state. *)
Fixpoint ids_loop `{!Platform} (events : list (event Link))
    (ending : option exn) (source_ids target_ids : gset Z)
    : list log_record * result (gset Z * gset Z) :=
  match events with
  | [] =>
      match ending with
      | None => ([], Ok (source_ids, target_ids))
      | Some e => ([], Raise e)
      end
  | Log l :: rest =>
      let '(ls, r) := ids_loop rest ending source_ids target_ids in
      (l :: ls, r)
  | Yield link :: rest =>
      match sentence_id link with
      | Raise e => ([], Raise e)
      | Ok sid =>
          match translation_id link with
          | Raise e => ([], Raise e)
          | Ok tid =>
              ids_loop rest ending (source_ids ∪ {[sid]}) (target_ids ∪ {[tid]})
          end
      end
  end.

(** [ids].  The decorator [lazy_property] is not among the sources.
    Modelled from the spec: a lazily computed attribute, computed once;
    this is the computation of its first access, with what it logs. *)
Definition ids `{!Platform} (lk : t) (fs : gmap string (list string))
    : list log_record * result (gset Z * gset Z) :=
  let links := iter lk fs in
  ids_loop links.1 links.2 ∅ ∅.

End Links.

(** ** A concrete platform

    The instance the examples run on: 64-bit CPython 3.9 and later.
    [sys.getsizeof] of a list is 56 bytes and 8 more for every allocated
    slot; [append] allocates slots ahead of need and [clear] gives them
    all back, so the size of a queue only depends on its length. *)

(** [list_resize] of [listobject.c], for a list of [size] elements and
    [allocated] slots that is resized to [newsize] elements. *)
Definition list_resize (allocated size newsize : Z) : Z :=
  if (newsize <=? allocated) && (Z.shiftr allocated 1 <=? newsize)
  then allocated
  else
    let new_allocated := Z.land (newsize + Z.shiftr newsize 3 + 6) (Z.lnot 3) in
    let new_allocated :=
      if newsize - size >? new_allocated - newsize
      then Z.land (newsize + 3) (Z.lnot 3) else new_allocated in
    if newsize =? 0 then 0 else new_allocated.

(** The slots of a list after [n] calls of [append] on an empty list. *)
Fixpoint allocated_slots (n : nat) : Z :=
  match n with
  | O => 0
  | S m => list_resize (allocated_slots m) (Z.of_nat m) (Z.of_nat n)
  end.

Definition cpython_getsizeof (q : list row) : Z :=
  56 + 8 * allocated_slots (length q).

Definition double_quote : ascii := "034"%char.

(** [csv.writer] with its default dialect quotes a field that holds the
    delimiter, the quote character or a line end, doubling the quotes in
    it, and writes a row of one empty field as two quotes. *)
Definition needs_quoting (d : ascii) (field : string) : bool :=
  existsb (λ c, Ascii.eqb c d || Ascii.eqb c double_quote
                || Ascii.eqb c "013" || Ascii.eqb c "010")
    (list_ascii_of_string field).

Fixpoint doubled_quotes (field : string) : string :=
  match field with
  | EmptyString => EmptyString
  | String c rest =>
      if Ascii.eqb c double_quote
      then String c (String c (doubled_quotes rest))
      else String c (doubled_quotes rest)
  end.

Definition csv_field (d : ascii) (field : string) : string :=
  if needs_quoting d field
  then str1 double_quote +:+ doubled_quotes field +:+ str1 double_quote
  else field.

Definition csv_writerow (d : ascii) (r : row) : string :=
  match r with
  | [EmptyString] => str1 double_quote +:+ str1 double_quote
  | _ => str_join (str1 d) (csv_field d <$> r)
  end.

(** [int] on an optional sign and decimal digits. *)
Definition digit_of (c : ascii) : option Z :=
  let n := Z.of_nat (nat_of_ascii c) in
  if (48 <=? n) && (n <=? 57) then Some (n - 48) else None.

Fixpoint digits_value (acc : Z) (s : string) : option Z :=
  match s with
  | EmptyString => Some acc
  | String c rest =>
      match digit_of c with
      | Some v => digits_value (10 * acc + v) rest
      | None => None
      end
  end.

Definition decimal_int (s : string) : option Z :=
  match s with
  | EmptyString => None
  | String "-" (String c rest) => Z.opp <$> digits_value 0 (String c rest)
  | String "+" (String c rest) => digits_value 0 (String c rest)
  | _ => digits_value 0 s
  end.

#[export] Instance cpython : Platform := {|
  getsizeof := cpython_getsizeof;
  writerow := csv_writerow;
  py_int := decimal_int;
|}.

(** ** Notions used in the properties *)

(** The number of delimiters in a string. *)
Fixpoint count_delim (d : ascii) (s : string) : nat :=
  match s with
  | EmptyString => 0
  | String c s' => (if Ascii.eqb c d then 1 else 0) + count_delim d s'
  end.

(** Every write attempt still to come ends well. *)
Definition io_ok (w : world) : Prop := Forall (λ o, o = IoOk) (pending_io w).

(** No queue is above the threshold. *)
Definition bounded `{!Platform} (b : Buffer.t) : Prop :=
  ∀ k q, dict_get k (Buffer._data b) = Some q → getsizeof q ≤ Buffer._max b.

(** Destination [k'] does not get in the way of destination [k]: it is
    not named as the in-progress file of [k], and its in-progress file is
    not named as [k]. *)
Definition independent (k k' : string) : Prop :=
  k' ≠ Buffer.part_name k ∧ Buffer.part_name k' ≠ k.

(** The records a run adds to destination [k], in order. *)
Definition rows_for (k : string) (calls : list (row * string)) : list row :=
  omap (λ call, if decide (call.2 = k) then Some call.1 else None) calls.

(** What a run that added the records [rs] to [k] has made of [k], from
    the world [w0] the buffer was constructed in: before the first record
    nothing of [k] has changed; from then on the out file is gone and the
    in-progress file holds what it held in [w0] and then the records
    flushed so far, the others being queued. *)
Definition run_inv `{!Platform} (k : string) (w0 : world) (dm : ascii)
    (rs : list row) (s : world * Buffer.t) : Prop :=
  io_ok s.1 ∧ Buffer._dm s.2 = dm ∧
  match dict_get k (Buffer._data s.2) with
  | None =>
      rs = []
      ∧ files s.1 !! k = files w0 !! k
      ∧ files s.1 !! Buffer.part_name k = files w0 !! Buffer.part_name k
      ∧ (k ∈ Buffer._fps s.2 ↔ is_Some (files w0 !! k))
  | Some q =>
      ∃ flushed,
        rs = flushed ++ q ∧ rs ≠ []
        ∧ files s.1 !! k = None
        ∧ default [] (files s.1 !! Buffer.part_name k)
          = default [] (files w0 !! Buffer.part_name k)
            ++ (writerow dm <$> flushed)
        ∧ (is_Some (files w0 !! Buffer.part_name k)
           → is_Some (files s.1 !! Buffer.part_name k))
  end.

(** The in-progress file of [k] is in the directory and starts with the
    lines [stale]. *)
Definition part_kept (k : string) (stale : list string)
    (fs : gmap string (list string)) : Prop :=
  ∃ more, fs !! Buffer.part_name k = Some (stale ++ more).

(** The loop of [clear] over the keys [ks]. *)
Definition flush_all `{!Platform} (ks : list string) (s : world * Buffer.t)
    : world * Buffer.t :=
  foldl (λ s out_fname, Buffer._save out_fname true s) s ks.

(** ** Notions used in the further properties *)

(** The row the loop of [custom_reader] goes on with: the row of the csv
    reader, through [unsplit_field] when a text column is set. *)
Definition regroup (nb_cols : Z) (delimiter : ascii) (text_col : option Z)
    (row0 : row) : result row :=
  match text_col_set text_col with
  | Some tc => unsplit_field row0 nb_cols delimiter tc
  | None => Ok row0
  end.




(** The key [get_mapped_fields] looks up for a field value: the value, or
    with [int_key] the integer it reads as ([None] where [int] raises). *)
Definition index_key `{!Platform} (int_key : bool) (val : string)
    : option (string + Z) :=
  if int_key then inr <$> py_int val else Some (inl val).

(** The last character of a string. *)
Fixpoint str_last (s : string) : option ascii :=
  match s with
  | EmptyString => None
  | String c s' =>
      match str_last s' with
      | Some l => Some l
      | None => Some c
      end
  end.

(** The keys of a dictionary that gets the keys [ks] in this order: each
    key once, at the place of its first occurrence. *)
Definition first_seen (ks : list string) : list string :=
  foldl (λ seen k, if decide (k ∈ seen) then seen else seen ++ [k]) [] ks.

(** Every record of [rs] is in the queue of [k] or has its line in the
    in-progress file of [k]. *)
Definition none_lost `{!Platform} (k : string) (rs : list row)
    (s : world * Buffer.t) : Prop :=
  ∀ r, r ∈ rs →
    r ∈ Buffer.queue k s.2
    ∨ ∃ content, files s.1 !! Buffer.part_name k = Some content
                 ∧ writerow (Buffer._dm s.2) r ∈ content.

(** * Properties *)

(** ** The reader *)

(** C4.  With a tab as delimiter and text column 1, the four physical
    lines ["1<tab>hello"], ["world"], the empty line and ["2<tab>bye"]
    give a column count of 2 and exactly two records, in this order:
    [["1"; "hello world "]] (the lone field joined to the last field after
    one space, the blank line adding one more space) and, at the end of
    the input, [["2"; "bye"]]. *)
Theorem custom_reader_multiline_example :
  let lines := ["1" +:+ String tab "hello"; "world"; EmptyString;
                "2" +:+ String tab "bye"] in
  Z.of_nat (length (csv_parse_line tab (hd EmptyString lines))) = 2
  ∧ custom_reader lines tab (Some 1)
    = ([Yield ["1"; "hello world "]; Yield ["2"; "bye"]], None).
Proof. split; vm_compute; reflexivity. Qed.

(** C6.  When the file of a [DataFile] is not in its directory, the reader
    yields no record: it logs the absence and ends with [NoDataFile]
    before any record, and [Links.__iter__], its caller, yields no link,
    logs a warning and ends normally. *)
Theorem missing_source_file_yields_nothing
    (lk : Links.t) (fs : gmap string (list string)) :
  fs !! Links.filename lk = None →
  let df := DataFile.Make (Links.filename lk) tab None in
  DataFile.iter df fs
  = ([Log (DEBUG, MsgDatafileNotFound (Links.filename lk))], Some NoDataFile)
  ∧ yields (DataFile.iter df fs) = []
  ∧ Links.iter lk fs
    = ([Log (DEBUG, MsgDatafileNotFound (Links.filename lk));
        Log (WARNING, MsgNoLocalData Links._table (Links._src_lg lk)
                        (Links._tgt_lg lk))], None)
  ∧ yields (Links.iter lk fs) = [].
Proof.
  intros Hmissing df.
  assert (Hiter : DataFile.iter df fs
    = ([Log (DEBUG, MsgDatafileNotFound (Links.filename lk))],
       Some NoDataFile)).
  { unfold DataFile.iter, df. cbn [DataFile._fp]. by rewrite Hmissing. }
  split; [exact Hiter|].
  split; [by rewrite Hiter|].
  assert (Hlinks : Links.iter lk fs
    = ([Log (DEBUG, MsgDatafileNotFound (Links.filename lk));
        Log (WARNING, MsgNoLocalData Links._table (Links._src_lg lk)
                        (Links._tgt_lg lk))], None)).
  { unfold Links.iter. fold df. by rewrite Hiter. }
  split; [exact Hlinks|]. by rewrite Hlinks.
Qed.

Lemma missing_source_file_yields_nothing_witness :
  let lk := Links.Make "eng" "fra" in
  let fs : gmap string (list string) := ∅ in
  yields (Links.iter lk fs) = [].
Proof.
  intros lk fs.
  exact (proj2 (proj2 (proj2
    (missing_source_file_yields_nothing lk fs (lookup_empty _))))).
Defined.

(** C10.  For a file that is in the directory and has no line, iterating
    the reader does not end normally with no record: [next] on the csv
    reader fails inside the generator and the iteration ends with an
    exception, after no record. *)
Theorem empty_source_file_raises
    (df : DataFile.t) (fs : gmap string (list string)) :
  fs !! DataFile._fp df = Some [] →
  DataFile.iter df fs = ([], Some RuntimeError)
  ∧ (DataFile.iter df fs).2 ≠ None.
Proof.
  intros Hempty. unfold DataFile.iter. rewrite Hempty. by split.
Qed.

Lemma empty_source_file_raises_witness :
  let df := DataFile.Make "links.csv" tab (Some (-1)) in
  let fs : gmap string (list string) := {[ "links.csv" := [] ]} in
  DataFile.iter df fs = ([], Some RuntimeError).
Proof.
  intros df fs.
  exact (proj1 (empty_source_file_raises df fs (lookup_singleton_eq _ _))).
Defined.

(** ** The buffer *)

Section BufferFacts.
Context `{!Platform}.

Lemma set_data_same (b : Buffer.t) :
  Buffer.set_data (Buffer._data b) b = b.
Proof. by destruct b. Qed.

Lemma clear_no_queue (w : world) (b : Buffer.t) :
  Buffer._data b = [] → Buffer.clear (w, b) = (w, b).
Proof.
  intros Hdata. unfold Buffer.clear. cbn. rewrite Hdata. cbn.
  by rewrite <- Hdata, set_data_same.
Qed.

Lemma clear_data (s : world * Buffer.t) :
  Buffer._data (Buffer.clear s).2 = [].
Proof. unfold Buffer.clear. by destruct (foldl _ _ _). Qed.

(** C8.  [clear] called a second time changes nothing: the files, the
    queues, the log and the write attempts still to come are those the
    first call left, so the files on disk after two calls are the files
    after one, and the second call writes and renames nothing. *)
Theorem clear_twice (s : world * Buffer.t) :
  Buffer.clear (Buffer.clear s) = Buffer.clear s.
Proof.
  pose proof (clear_data s) as Hdata.
  destruct (Buffer.clear s) as [w b]. by apply clear_no_queue.
Qed.
End BufferFacts.

Section FailedFlush.
Context `{!Platform}.

(** A flush that fails is logged and leaves the buffer, its queues
    included, as it was. *)
Lemma save_failure_keeps_queue (out_fname : string) (end_ : bool)
    (w : world) (b : Buffer.t) (o : io_outcome) (rest : list io_outcome)
    (q : list row) :
  dict_get out_fname (Buffer._data b) = Some q →
  pending_io w = o :: rest →
  o ≠ IoOk →
  let s := Buffer._save out_fname end_ (w, b) in
  s.2 = b
  ∧ Buffer.queue out_fname s.2 = q
  ∧ log s.1 = log w ++ [(DEBUG, MsgSaveError (Buffer.part_name out_fname))]
  ∧ pending_io s.1 = rest.
Proof.
  intros Hq Hio Hfail. unfold Buffer._save, Buffer.queue, next_io.
  rewrite Hq, Hio. destruct o; [done| |]; cbn; by rewrite Hq.
Qed.

(** After a failed flush triggered by [add], the next flush of the same
    destination writes the records that were kept. *)
Lemma save_after_failure_writes_queue (out_fname : string)
    (w : world) (b : Buffer.t) (rest : list io_outcome) (q : list row) :
  dict_get out_fname (Buffer._data b) = Some q →
  pending_io w = IoOpenError :: IoOk :: rest →
  let s := Buffer._save out_fname false
             (Buffer._save out_fname false (w, b)) in
  files s.1 !! Buffer.part_name out_fname
  = Some (default [] (files w !! Buffer.part_name out_fname)
          ++ (writerow (Buffer._dm b) <$> q)).
Proof.
  intros Hq Hio. unfold Buffer._save at 2. unfold next_io.
  rewrite Hq, Hio. cbn. unfold Buffer._save, next_io. rewrite Hq. cbn.
  by rewrite lookup_insert_eq.
Qed.
End FailedFlush.

(** C1.  A flush that fails inside [clear] loses the records of its
    queue.  One record is added to a new buffer over an empty directory
    and [clear] meets an error when it opens the out file: the failure is
    logged, and after [clear] the record is in no file and in no queue. *)
Theorem clear_loses_records_of_failed_flush :
  let w0 := World ∅ [IoOpenError] [] in
  let b0 := Buffer.init w0 tab Buffer.default_max_size in
  let s1 := Buffer.add ["1"; "2"] "en-fr_links.tsv" (w0, b0) in
  let s2 := Buffer.clear s1 in
  Buffer.queue "en-fr_links.tsv" s1.2 = [["1"; "2"]]
  ∧ log s2.1 = [(DEBUG, MsgSaveError "en-fr_links.tsv.part")]
  ∧ files s2.1 = ∅
  ∧ Buffer._data s2.2 = [].
Proof. vm_compute. done. Qed.

(** ** [split] *)

Section SplitFacts.
Context `{!Platform}.

(** The first call in the body of the loop passes one argument to a
    function of four parameters. *)
Lemma split_body_raises (df : DataFile.t) (row0 : row)
    (s : world * Buffer.t) :
  DataFile.split_body df row0 s = (s, Some TypeError).
Proof. reflexivity. Qed.

Lemma split_loop_files (df : DataFile.t) (events : list (event row))
    (ending : option exn) (s : world * Buffer.t) :
  let r := DataFile.split_loop df events ending s in
  files r.1.1 = files s.1 ∧ r.1.2 = s.2
  ∧ (yields (events, ending) ≠ [] → r.2 = Some TypeError).
Proof.
  revert s. induction events as [|[row0|l] events IH]; intros s; cbn.
  - done.
  - done.
  - destruct (IH (add_log l s.1, s.2)) as (Hf & Hb & Hy). cbn in *.
    done.
Qed.

(** [split] writes, removes and renames no file, whatever it reads. *)
Lemma split_files (df : DataFile.t) (columns : list Z)
    (index : option index_dict) (int_key : bool) (w : world) :
  files (DataFile.split df columns index int_key w).1 = files w.
Proof.
  unfold DataFile.split.
  pose proof (split_loop_files df
    (DataFile.iter df (files (add_log (INFO, MsgSplitting (DataFile.name df)) w))).1
    (DataFile.iter df (files (add_log (INFO, MsgSplitting (DataFile.name df)) w))).2
    (add_log (INFO, MsgSplitting (DataFile.name df)) w,
     Buffer.init (add_log (INFO, MsgSplitting (DataFile.name df)) w)
       (DataFile._dm df) Buffer.default_max_size)) as (Hf & Hb & _).
  destruct (DataFile.split_loop _ _ _ _) as [[w1 b1] [e|]]; cbn in *.
  - done.
  - subst b1. by rewrite clear_no_queue.
Qed.

(** Every record the reader yields ends [split] with [TypeError]. *)
Lemma split_raises (df : DataFile.t) (columns : list Z)
    (index : option index_dict) (int_key : bool) (w : world) :
  yields (DataFile.iter df (files w)) ≠ [] →
  (DataFile.split df columns index int_key w).2 = Some TypeError.
Proof.
  intros Hy. unfold DataFile.split.
  set (w1 := add_log (INFO, MsgSplitting (DataFile.name df)) w).
  change (files w1) with (files w).
  pose proof (split_loop_files df (DataFile.iter df (files w)).1
    (DataFile.iter df (files w)).2
    (w1, Buffer.init w1 (DataFile._dm df) Buffer.default_max_size))
    as (_ & _ & Hr).
  rewrite <- surjective_pairing in Hr. specialize (Hr Hy).
  destruct (DataFile.split_loop _ _ _ _) as [[w2 b2] [e|]]; cbn in *;
    congruence.
Qed.

(** What the loop of [split] computes with once the mapped fields are
    there: the fields are all non-empty exactly when [all] holds, and
    the out file name is the mapped values joined by dashes, an
    underscore, the stem of the source file, and [tsv] or [csv]. *)
Lemma all_spec (mapped_fields : list (option string)) :
  all mapped_fields = true
  ↔ ∃ fields, mapped_fields = Some <$> fields
              ∧ Forall (λ f, f ≠ EmptyString) fields.
Proof.
  unfold all. induction mapped_fields as [|v vs IH]; cbn.
  - split; [|done]. intros _. exists []. by split.
  - rewrite andb_true_iff, IH. split.
    + intros [Hv (fields & -> & Hall)].
      destruct v as [[|c f]|]; try done.
      exists (String c f :: fields). split; [done|]. by constructor.
    + intros ([|f fields] & Heq & Hall); [done|].
      inversion Heq; subst. inversion Hall; subst.
      split; [by destruct f|]. by exists fields.
Qed.

Lemma get_out_filename_spec (df : DataFile.t) (fields : list string) :
  DataFile._get_out_filename df (Some <$> fields)
  = Ok (str_join "-" fields +:+ "_" +:+ DataFile.stem df +:+ "."
        +:+ (if Ascii.eqb (DataFile._dm df) tab then "tsv" else "csv")).
Proof.
  unfold DataFile._get_out_filename, all_str.
  assert (mapM id (Some <$> fields) = Some fields) as ->; [|done].
  apply mapM_Some. induction fields; by constructor.
Qed.
End SplitFacts.

(** C2.  [split] routes no record.  On a file of two records, with the
    first column as the configured column, the mapped field of each
    record is non-empty, so both should reach the buffer; the call ends
    with [TypeError] at the first record and leaves the directory as it
    was, with no out file. *)
Theorem split_raises_on_first_record :
  let lines := ["en" +:+ String tab "1"; "fr" +:+ String tab "2"] in
  let w0 := World {[ "links.csv" := lines ]} [] [] in
  let df := DataFile.Make "links.csv" tab (Some (-1)) in
  yields (DataFile.iter df (files w0)) = [["en"; "1"]; ["fr"; "2"]]
  ∧ (get_mapped_fields ["en"; "1"] [0] None false).2 = Ok [Some "en"]
  ∧ DataFile.split df [0] None false w0
    = (World {[ "links.csv" := lines ]} [] [(INFO, MsgSplitting "links.csv")],
       Some TypeError).
Proof. vm_compute. done. Qed.

(** ** Cutting a line and joining it again *)

Lemma str_split_length (d : ascii) (s : string) :
  length (str_split d s) = S (count_delim d s).
Proof.
  induction s as [|c s IH]; [done|]. cbn.
  destruct (Ascii.eqb c d); cbn; [by rewrite IH|].
  destruct (str_split d s); cbn in *; done.
Qed.

Lemma str_split_no_delim (d : ascii) (s : string) :
  count_delim d s = 0%nat → str_split d s = [s].
Proof.
  induction s as [|c s IH]; [done|]. cbn.
  destruct (Ascii.eqb c d); [done|]. cbn. intros H. by rewrite IH.
Qed.

Lemma str_split_app (d : ascii) (s1 s2 : string) :
  str_split d (s1 +:+ String d s2) = str_split d s1 ++ str_split d s2.
Proof.
  induction s1 as [|c s1 IH]; simpl.
  - by rewrite Ascii.eqb_refl.
  - rewrite IH. destruct (Ascii.eqb c d); [done|].
    pose proof (str_split_length d s1) as Hlen.
    destruct (str_split d s1); [done|]. done.
Qed.

Lemma str_join_cons (sep f : string) (rest : list string) :
  rest ≠ [] → str_join sep (f :: rest) = f +:+ sep +:+ str_join sep rest.
Proof. by destruct rest. Qed.

Lemma str_split_join (d : ascii) (fields : list string) :
  fields ≠ [] →
  str_split d (str_join (str1 d) fields) = fields ≫= str_split d.
Proof.
  induction fields as [|f fields IH]; [done|]. intros _.
  destruct fields as [|g fields].
  - cbn. by rewrite app_nil_r.
  - rewrite str_join_cons by done. unfold str1 at 1.
    change (f +:+ String d EmptyString +:+ ?s) with (f +:+ String d s).
    rewrite str_split_app, IH by done. done.
Qed.

Lemma str_join_head (d c : ascii) (f : string) (fs : list string) :
  str_join (str1 d) (String c f :: fs) = String c (str_join (str1 d) (f :: fs)).
Proof. by destruct fs. Qed.

Lemma str_join_split (d : ascii) (s : string) :
  str_join (str1 d) (str_split d s) = s.
Proof.
  induction s as [|c s IH]; [done|]. cbn [str_split].
  pose proof (str_split_length d s) as Hlen.
  destruct (Ascii.eqb_spec c d) as [->|Hne].
  - rewrite str_join_cons by (by destruct (str_split d s)).
    by rewrite IH.
  - destruct (str_split d s) as [|f fs]; [done|].
    by rewrite str_join_head, IH.
Qed.

Lemma bind_no_delim (d : ascii) (fields : list string) :
  Forall (λ f, count_delim d f = 0%nat) fields →
  fields ≫= str_split d = fields.
Proof.
  induction 1 as [|f fields Hf _ IH]; [done|].
  cbn. by rewrite str_split_no_delim, IH.
Qed.

Section PyListFacts.
Context {A : Type}.
Implicit Types l : list A.

Lemma py_bound_inside l (z : Z) :
  0 ≤ z ≤ Z.of_nat (length l) → py_bound l z = Z.to_nat z.
Proof.
  intros Hz. unfold py_bound.
  destruct (Z.ltb_spec z 0); [lia|]. f_equal. lia.
Qed.

Lemma py_index_inside l (z : Z) :
  0 ≤ z < Z.of_nat (length l) → py_index l z = Some (Z.to_nat z).
Proof.
  intros Hz. unfold py_index.
  destruct (Z.ltb_spec z 0); [lia|].
  destruct (Z.leb_spec 0 z), (Z.ltb_spec z (Z.of_nat (length l)));
    cbn; done || lia.
Qed.
End PyListFacts.

(** [unsplit_field] on a row whose text field, at position [length pre],
    was cut into two fragments or more. *)
Lemma unsplit_field_fragments (d : ascii) (pre post fragments : list string)
    (index_field : Z) :
  let nb_cols := Z.of_nat (length pre + 1 + length post) in
  (2 ≤ length fragments)%nat →
  index_field = Z.of_nat (length pre)
  ∨ index_field = Z.of_nat (length pre) - nb_cols →
  unsplit_field (pre ++ fragments ++ post) nb_cols d index_field
  = Ok (pre ++ str_join (str1 d) fragments :: post).
Proof.
  intros nb_cols Hk Hidx. unfold unsplit_field.
  assert (Hnorm : (if index_field <? 0 then nb_cols + index_field
                   else index_field) = Z.of_nat (length pre)).
  { unfold nb_cols in *. destruct (Z.ltb_spec index_field 0); lia. }
  rewrite Hnorm.
  destruct fragments as [|f fragments]; [cbn in Hk; lia|].
  cbn [length] in Hk.
  assert (Hlen : length (pre ++ (f :: fragments) ++ post)
                 = (length pre + S (length fragments) + length post)%nat).
  { rewrite !length_app. cbn. lia. }
  rewrite Hlen.
  replace (Z.of_nat (length pre + S (length fragments) + length post)
           - nb_cols) with (Z.of_nat (length fragments))
    by (unfold nb_cols; lia).
  destruct (Z.ltb_spec 0 (Z.of_nat (length fragments))); [|lia].
  unfold py_slice, py_setitem.
  rewrite !py_bound_inside, py_index_inside by (rewrite Hlen; lia).
  rewrite Nat2Z.id.
  replace (Z.to_nat (Z.of_nat (length pre) + Z.of_nat (length fragments) + 1)
           - length pre)%nat with (length (f :: fragments)) by (cbn; lia).
  rewrite drop_app_length, take_app_length.
  change (Ok ?x ≫= ?k) with (k x). cbn beta. f_equal.
  rewrite insert_app_r_alt, Nat.sub_diag by lia. cbn [insert list_insert app].
  unfold py_delslice.
  assert (Hlen1 : ∀ x, length (pre ++ x :: fragments ++ post)
                 = (length pre + S (length fragments) + length post)%nat).
  { intros x. rewrite length_app. cbn. rewrite length_app. lia. }
  rewrite (py_bound_inside _ (Z.of_nat (length pre) + 1)),
    (py_bound_inside _ (Z.of_nat (length pre) + Z.of_nat (length fragments) + 1))
    by (rewrite Hlen1; lia).
  replace (Z.to_nat (Z.of_nat (length pre) + 1)) with (S (length pre)) by lia.
  replace (S (length pre)
           `max` Z.to_nat (Z.of_nat (length pre)
                           + Z.of_nat (length fragments) + 1))%nat
    with (length pre + S (length fragments))%nat by lia.
  rewrite take_app_ge by lia.
  replace (S (length pre) - length pre)%nat with 1%nat by lia. cbn [take].
  rewrite drop_app_ge by lia.
  replace (length pre + S (length fragments) - length pre)%nat
    with (S (length fragments)) by lia.
  cbn [drop]. rewrite drop_app_length. by rewrite <- app_assoc.
Qed.

(** C7.  A record whose text field holds delimiters, written as one line
    and cut at the delimiters, comes as as many fragments as the record
    has fields plus the delimiters in the text field; the overflow merge
    of [unsplit_field] then gives back a row of [nb_cols] fields, the
    record itself, with the text field as it was. *)
Theorem overflow_round_trip (d : ascii) (pre post : list string)
    (text : string) (text_col : Z) :
  let record := pre ++ text :: post in
  let nb_cols := Z.of_nat (length record) in
  Forall (λ f, count_delim d f = 0%nat) pre →
  Forall (λ f, count_delim d f = 0%nat) post →
  (0 < count_delim d text)%nat →
  text_col = Z.of_nat (length pre)
  ∨ text_col = Z.of_nat (length pre) - nb_cols →
  let fragments := csv_parse_line d (str_join (str1 d) record) in
  length fragments = (length record + count_delim d text)%nat
  ∧ (∃ merged,
      unsplit_field fragments nb_cols d text_col = Ok merged
      ∧ Z.of_nat (length merged) = nb_cols
      ∧ merged !! length pre = Some text
      ∧ merged = record)
  ∧ (text_col ≠ 0 →
     reader_loop nb_cols d (Some text_col) [fragments] []
     = ([Yield record], None)).
Proof.
  intros record nb_cols Hpre Hpost Htext Hcol fragments.
  assert (Hfrag : fragments = pre ++ str_split d text ++ post).
  { assert (Hsplit : str_split d (str_join (str1 d) record)
                     = pre ++ str_split d text ++ post).
    { rewrite str_split_join by (by destruct pre).
      unfold record. rewrite bind_app, bind_cons.
      by rewrite !bind_no_delim. }
    unfold fragments, csv_parse_line.
    destruct (str_join (str1 d) record) eqn:Hline; [|done].
    cbn in Hsplit. pose proof (str_split_length d text).
    apply (f_equal length) in Hsplit. rewrite !length_app in Hsplit.
    cbn in Hsplit. lia. }
  pose proof (str_split_length d text) as Hlen.
  assert (Hmerge : unsplit_field fragments nb_cols d text_col = Ok record).
  { rewrite Hfrag. unfold nb_cols, record.
    replace (length (pre ++ text :: post))
      with (length pre + 1 + length post)%nat
      by (rewrite length_app; cbn; lia).
    rewrite unsplit_field_fragments.
    + by rewrite str_join_split.
    + lia.
    + destruct Hcol as [->| ->]; [by left|right].
      unfold nb_cols, record. rewrite length_app. cbn. lia. }
  split; [|split].
  { rewrite Hfrag. unfold record. rewrite !length_app. cbn. lia. }
  - exists record. split; [done|]. split; [done|]. split; [|done].
    unfold record. by apply list_lookup_middle.
  - intros Hcol0. cbn [reader_loop text_col_set].
    destruct (Z.eqb_spec text_col 0); [done|].
    rewrite Hmerge. fold nb_cols. rewrite Z.eqb_refl. cbn [nonempty].
    unfold record. by destruct pre.
Qed.

Lemma overflow_round_trip_witness :
  unsplit_field
    (csv_parse_line tab
       (str_join (str1 tab) ["7"; "eng"; "a" +:+ String tab "b"]))
    3 tab (-1)
  = Ok ["7"; "eng"; "a" +:+ String tab "b"].
Proof.
  destruct (overflow_round_trip tab ["7"; "eng"] [] ("a" +:+ String tab "b")
              (-1)) as (_ & (merged & Hmerge & _ & _ & ->) & _).
  - by repeat constructor.
  - constructor.
  - vm_compute. lia.
  - right. reflexivity.
  - exact Hmerge.
Defined.

(** ** Queues and the threshold *)

Section DictFacts.
Context {V : Type}.
Implicit Types d : list (string * V).

Lemma dict_get_app k d d' :
  dict_get k (d ++ d')
  = match dict_get k d with Some v => Some v | None => dict_get k d' end.
Proof.
  induction d as [|[k0 v0] d IH]; [done|]. cbn.
  by destruct (decide (k0 = k)).
Qed.

Lemma dict_get_alter (f : V → V) k k' d :
  dict_get k' (dict_alter f k d)
  = if decide (k = k') then f <$> dict_get k d else dict_get k' d.
Proof.
  induction d as [|[k0 v0] d IH]; cbn.
  - by destruct (decide (k = k')).
  - destruct (decide (k0 = k)) as [->|Hne]; cbn.
    + by destruct (decide (k = k')).
    + rewrite IH. destruct (decide (k0 = k')) as [->|]; [|done].
      by destruct (decide (k = k')).
Qed.

Lemma dict_get_set k k' (v : V) d :
  dict_get k' (dict_set k v d)
  = if decide (k = k') then Some v else dict_get k' d.
Proof.
  unfold dict_set. destruct (dict_get k d) as [v0|] eqn:Hk.
  - rewrite dict_get_alter, Hk. by destruct (decide (k = k')).
  - rewrite dict_get_app. cbn.
    destruct (decide (k = k')) as [<-|Hne]; [by rewrite Hk|].
    by destruct (dict_get k' d).
Qed.

Lemma dict_keys_alter (f : V → V) k d :
  dict_keys (dict_alter f k d) = dict_keys d.
Proof.
  unfold dict_keys. induction d as [|[k0 v0] d IH]; [done|]. cbn.
  destruct (decide (k0 = k)); cbn; by rewrite ?IH.
Qed.

Lemma dict_get_keys k d : is_Some (dict_get k d) ↔ k ∈ dict_keys d.
Proof.
  unfold dict_keys. induction d as [|[k0 v0] d IH]; cbn.
  - rewrite elem_of_nil. split; [by intros [? ?]|done].
  - rewrite elem_of_cons, <- IH.
    destruct (decide (k0 = k)) as [->|Hne]; [by split; eauto|].
    split; [by right|]. by intros [->|].
Qed.
End DictFacts.

Section QueueFacts.
Context `{!Platform}.
Implicit Types (s : world * Buffer.t) (k : string) (elt : row).

Lemma next_io_ok w : io_ok w → (next_io w).1 = IoOk ∧ io_ok (next_io w).2
  ∧ files (next_io w).2 = files w ∧ log (next_io w).2 = log w.
Proof.
  unfold io_ok, next_io. destruct w as [fs [|o io] lg]; cbn; [done|].
  intros Hio. by inversion Hio; subst.
Qed.

Lemma first_touch_get elt k k' s :
  dict_get k' (Buffer._data (Buffer.first_touch k s).2)
  = if decide (k = k') then Some (Buffer.queue k s.2)
    else dict_get k' (Buffer._data s.2).
Proof.
  destruct s as [w b]. unfold Buffer.first_touch, Buffer.queue. cbn.
  destruct (dict_get k (Buffer._data b)) as [q|] eqn:Hk; cbn.
  - destruct (decide (k = k')) as [<-|]; [by rewrite Hk|done].
  - destruct (decide (k ∈ Buffer._fps b)); cbn; by rewrite dict_get_set.
Qed.

Lemma first_touch_frame k s :
  Buffer._max (Buffer.first_touch k s).2 = Buffer._max s.2
  ∧ Buffer._dm (Buffer.first_touch k s).2 = Buffer._dm s.2
  ∧ pending_io (Buffer.first_touch k s).1 = pending_io s.1
  ∧ log (Buffer.first_touch k s).1 = log s.1.
Proof.
  destruct s as [w b]. unfold Buffer.first_touch. cbn.
  destruct (dict_get k (Buffer._data b)); [done|].
  by destruct (decide (k ∈ Buffer._fps b)).
Qed.

Lemma appended_get elt k k' s :
  dict_get k' (Buffer._data (Buffer.appended elt k s).2)
  = if decide (k = k') then Some (Buffer.queue k s.2 ++ [elt])
    else dict_get k' (Buffer._data s.2).
Proof.
  unfold Buffer.appended.
  pose proof (first_touch_get elt k k s) as Hk.
  pose proof (first_touch_get elt k k' s) as Hk'.
  destruct (Buffer.first_touch k s) as [w1 b1]. cbn in *.
  rewrite decide_True in Hk by done.
  unfold Buffer.setdefault_append. rewrite Hk, dict_get_alter, Hk.
  by destruct (decide (k = k')).
Qed.

Lemma appended_frame elt k s :
  Buffer._max (Buffer.appended elt k s).2 = Buffer._max s.2
  ∧ Buffer._dm (Buffer.appended elt k s).2 = Buffer._dm s.2
  ∧ pending_io (Buffer.appended elt k s).1 = pending_io s.1
  ∧ log (Buffer.appended elt k s).1 = log s.1.
Proof.
  unfold Buffer.appended. pose proof (first_touch_frame k s) as Hframe.
  by destruct (Buffer.first_touch k s).
Qed.

Lemma appended_queue elt k s :
  Buffer.queue k (Buffer.appended elt k s).2 = Buffer.queue k s.2 ++ [elt].
Proof.
  unfold Buffer.queue at 1. rewrite appended_get.
  by rewrite decide_True.
Qed.

(** A flush that ends well empties its queue and no other. *)
Lemma save_ok_get k k' end_ s :
  io_ok s.1 →
  is_Some (dict_get k (Buffer._data s.2)) →
  dict_get k' (Buffer._data (Buffer._save k end_ s).2)
  = if decide (k = k') then Some [] else dict_get k' (Buffer._data s.2).
Proof.
  destruct s as [w b]. cbn. intros Hio [q Hq].
  destruct (next_io_ok w Hio) as (Ho & _).
  unfold Buffer._save. rewrite Hq.
  destruct (next_io w) as [o w1]. cbn in Ho. subst o. cbn.
  rewrite dict_get_alter, Hq. done.
Qed.

Lemma save_frame k end_ s :
  io_ok s.1 →
  Buffer._max (Buffer._save k end_ s).2 = Buffer._max s.2
  ∧ Buffer._dm (Buffer._save k end_ s).2 = Buffer._dm s.2
  ∧ Buffer._fps (Buffer._save k end_ s).2 = Buffer._fps s.2
  ∧ io_ok (Buffer._save k end_ s).1
  ∧ log (Buffer._save k end_ s).1 = log s.1.
Proof.
  destruct s as [w b]. cbn. intros Hio.
  destruct (next_io_ok w Hio) as (Ho & Hio1 & _ & Hlog).
  unfold Buffer._save.
  destruct (dict_get k (Buffer._data b)); [|done].
  destruct (next_io w) as [o w1]. cbn in *. subst o. done.
Qed.

(** What one [add] does to the queues when the writes end well. *)
Lemma add_get elt k k' s :
  io_ok s.1 →
  dict_get k' (Buffer._data (Buffer.add elt k s).2)
  = if decide (k = k')
    then Some (if getsizeof (Buffer.queue k s.2 ++ [elt]) >? Buffer._max s.2
               then [] else Buffer.queue k s.2 ++ [elt])
    else dict_get k' (Buffer._data s.2).
Proof.
  intros Hio. unfold Buffer.add.
  destruct (appended_frame elt k s) as (Hmax & _ & Hpend & _).
  rewrite appended_queue, Hmax.
  destruct (getsizeof (Buffer.queue k s.2 ++ [elt]) >? Buffer._max s.2).
  - rewrite save_ok_get.
    + rewrite appended_get. by destruct (decide (k = k')).
    + unfold io_ok. by rewrite Hpend.
    + rewrite appended_get, decide_True by done. eauto.
  - apply appended_get.
Qed.

Lemma add_frame elt k s :
  io_ok s.1 →
  Buffer._max (Buffer.add elt k s).2 = Buffer._max s.2
  ∧ Buffer._dm (Buffer.add elt k s).2 = Buffer._dm s.2
  ∧ io_ok (Buffer.add elt k s).1
  ∧ log (Buffer.add elt k s).1 = log s.1.
Proof.
  intros Hio. unfold Buffer.add.
  destruct (appended_frame elt k s) as (Hmax & Hdm & Hpend & Hlog).
  assert (io_ok (Buffer.appended elt k s).1) as Hio1.
  { unfold io_ok. by rewrite Hpend. }
  destruct (_ >? _).
  - destruct (save_frame k false _ Hio1) as (-> & -> & _ & ? & ->). done.
  - done.
Qed.

Lemma add_bounded elt k s :
  getsizeof [] ≤ Buffer._max s.2 → io_ok s.1 →
  bounded s.2 → bounded (Buffer.add elt k s).2.
Proof.
  intros Hempty Hio Hb k' q. rewrite add_get by done.
  destruct (add_frame elt k s Hio) as (-> & _).
  destruct (decide (k = k')) as [<-|]; [|by apply Hb].
  destruct (Z.gtb_spec (getsizeof (Buffer.queue k s.2 ++ [elt]))
              (Buffer._max s.2)); intros [= <-]; lia.
Qed.

Lemma adds_bounded (calls : list (row * string)) s :
  getsizeof [] ≤ Buffer._max s.2 → io_ok s.1 → bounded s.2 →
  let s' := Buffer.adds calls s in
  bounded s'.2 ∧ io_ok s'.1 ∧ Buffer._max s'.2 = Buffer._max s.2.
Proof.
  revert s. induction calls as [|[elt k] calls IH]; intros s He Hio Hb.
  - done.
  - cbn. destruct (add_frame elt k s Hio) as (Hmax & _ & Hio' & _).
    destruct (IH (Buffer.add elt k s)) as (? & ? & ?).
    + by rewrite Hmax.
    + done.
    + by apply add_bounded.
    + split; [done|]. split; [done|].
      etrans; [eassumption|]. exact Hmax.
Qed.

Lemma queue_bounded k (b : Buffer.t) :
  getsizeof [] ≤ Buffer._max b → bounded b →
  getsizeof (Buffer.queue k b) ≤ Buffer._max b.
Proof.
  intros He Hb. unfold Buffer.queue.
  destruct (dict_get k (Buffer._data b)) as [q|] eqn:Hq; [by eapply Hb|done].
Qed.

(** C3, as the code has it.  When the threshold is not below the size of
    an empty queue and the writes end well, then after any run of [add]
    calls and for the next record added to any destination: the queue
    was not above the threshold before the call; at the size check,
    right after the append, it is above the threshold by no more than
    what the record just appended added to its size; a queue above the
    threshold at the check is flushed at once and is empty when [add]
    returns, and otherwise the record stays queued; and when [add]
    returns the queue is again not above the threshold. *)
Theorem queue_size_bounded (w0 : world) (delimiter : ascii) (max_size : Z)
    (calls : list (row * string)) (elt : row) (k : string) :
  getsizeof [] ≤ max_size →
  io_ok w0 →
  let s := Buffer.adds calls (w0, Buffer.init w0 delimiter max_size) in
  let q := Buffer.queue k s.2 in
  let at_check := Buffer.queue k (Buffer.appended elt k s).2 in
  let after := Buffer.queue k (Buffer.add elt k s).2 in
  getsizeof q ≤ max_size
  ∧ at_check = q ++ [elt]
  ∧ getsizeof at_check ≤ max_size + (getsizeof (q ++ [elt]) - getsizeof q)
  ∧ (max_size < getsizeof at_check → after = [])
  ∧ (getsizeof at_check ≤ max_size → after = q ++ [elt])
  ∧ getsizeof after ≤ max_size.
Proof.
  intros Hempty Hio s q at_check after.
  destruct (adds_bounded calls (w0, Buffer.init w0 delimiter max_size))
    as (Hb & Hio' & Hmax); [done..|].
  fold s in Hb, Hio', Hmax. cbn in Hmax.
  assert (Hq : getsizeof q ≤ max_size).
  { rewrite <- Hmax. apply queue_bounded; [by rewrite Hmax|done]. }
  assert (Hcheck : at_check = q ++ [elt]) by apply appended_queue.
  assert (Hafter : after = if getsizeof (q ++ [elt]) >? max_size
                           then [] else q ++ [elt]).
  { unfold after, Buffer.queue at 1. rewrite add_get, decide_True by done.
    by rewrite Hmax. }
  rewrite Hcheck, Hafter.
  destruct (Z.gtb_spec (getsizeof (q ++ [elt])) max_size);
    repeat split; try done; lia.
Qed.
End QueueFacts.

Lemma queue_size_bounded_witness :
  let w0 := World ∅ [] [] in
  let s := Buffer.adds [(["1"; "2"], "a.tsv")] (w0, Buffer.init w0 tab 100) in
  getsizeof (Buffer.queue "a.tsv" (Buffer.add ["3"; "4"] "a.tsv" s).2) ≤ 100.
Proof.
  intros w0 s.
  assert (Hempty : getsizeof [] ≤ 100) by (vm_compute; discriminate).
  assert (Hio : io_ok w0) by constructor.
  exact (proj2 (proj2 (proj2 (proj2 (proj2
    (queue_size_bounded w0 tab 100 [(["1"; "2"], "a.tsv")] ["3"; "4"] "a.tsv"
       Hempty Hio)))))).
Defined.

(** C3, as stated, fails for a threshold below the size of an empty queue.
    With [max_size = 0] the first record makes a queue of 88 bytes; the
    flush leaves the empty queue, of 56 bytes, and the record added 32. *)
Lemma queue_size_above_small_threshold :
  let w0 := World ∅ [] [] in
  let s := (w0, Buffer.init w0 tab 0) in
  let elt := ["1"; "2"] in
  let q := Buffer.queue "a.tsv" s.2 in
  let after := Buffer.queue "a.tsv" (Buffer.add elt "a.tsv" s).2 in
  io_ok w0
  ∧ getsizeof after = 56
  ∧ getsizeof (q ++ [elt]) - getsizeof q = 32
  ∧ ¬ getsizeof after ≤ 0 + (getsizeof (q ++ [elt]) - getsizeof q).
Proof.
  split; [constructor|]. vm_compute. by repeat split.
Qed.

(** ** Out files and in-progress files *)

Lemma string_app_nil (t : string) : EmptyString +:+ t = t.
Proof. reflexivity. Qed.

Lemma string_app_cons (c : ascii) (s t : string) :
  String c s +:+ t = String c (s +:+ t).
Proof. reflexivity. Qed.

Lemma string_length_app (s t : string) :
  String.length (s +:+ t) = (String.length s + String.length t)%nat.
Proof.
  induction s as [|c s IH]; [done|].
  rewrite string_app_cons. simpl. by rewrite IH.
Qed.

Lemma string_app_inj_r (s1 s2 t : string) : s1 +:+ t = s2 +:+ t → s1 = s2.
Proof.
  revert s2. induction s1 as [|c s1 IH]; intros [|c2 s2] Heq.
  - done.
  - apply (f_equal String.length) in Heq.
    rewrite !string_length_app in Heq. simpl in Heq. lia.
  - apply (f_equal String.length) in Heq.
    rewrite !string_length_app in Heq. simpl in Heq. lia.
  - rewrite !string_app_cons in Heq. injection Heq as -> Heq.
    by rewrite (IH s2).
Qed.

Lemma part_name_inj (k k' : string) :
  Buffer.part_name k = Buffer.part_name k' → k = k'.
Proof. apply string_app_inj_r. Qed.

Lemma part_name_ne (k : string) : Buffer.part_name k ≠ k.
Proof.
  intros Heq. apply (f_equal String.length) in Heq.
  unfold Buffer.part_name in Heq. rewrite string_length_app in Heq.
  simpl in Heq. lia.
Qed.

Lemma rfind_part (k : string) :
  rfind "." (Buffer.part_name k) = Some (String.length k).
Proof.
  induction k as [|c k IH]; [done|].
  change (Buffer.part_name (String c k)) with (String c (Buffer.part_name k)).
  simpl rfind. by rewrite IH.
Qed.

Lemma substring_prefix (s t : string) :
  substring 0 (String.length s) (s +:+ t) = s.
Proof.
  induction s as [|c s IH].
  - by destruct t.
  - rewrite string_app_cons. simpl. by rewrite IH.
Qed.

(** The name [_save] renames the in-progress file to is the out file
    name. *)
Lemma stem_part_name (k : string) :
  k ≠ EmptyString → stem (Buffer.part_name k) = k.
Proof.
  intros Hk. unfold stem. rewrite rfind_part.
  unfold Buffer.part_name at 1. rewrite string_length_app.
  assert (0 < String.length k)%nat as Hlen by (destruct k; simpl; [done|lia]).
  destruct (Nat.ltb_spec 0 (String.length k)); [|lia].
  destruct (Nat.ltb_spec (String.length k)
              (String.length k + String.length ".part" - 1)); simpl in *;
    [|lia].
  apply substring_prefix.
Qed.

Lemma stem_part_name_cases (k : string) :
  stem (Buffer.part_name k) = k
  ∨ stem (Buffer.part_name k) = Buffer.part_name k.
Proof.
  destruct k as [|c k]; [by right|]. left. by apply stem_part_name.
Qed.

Section FileFacts.
Context `{!Platform}.
Implicit Types (s : world * Buffer.t) (k n : string) (elt : row).

Lemma first_touch_files_other k n s :
  n ≠ k →
  files (Buffer.first_touch k s).1 !! n = files s.1 !! n
  ∧ (n ∈ Buffer._fps (Buffer.first_touch k s).2 ↔ n ∈ Buffer._fps s.2).
Proof.
  intros Hne. destruct s as [w b]. unfold Buffer.first_touch. cbn.
  destruct (dict_get k (Buffer._data b)); [done|].
  destruct (decide (k ∈ Buffer._fps b)); cbn; [|done].
  rewrite lookup_delete_ne by done. split; [done|].
  rewrite elem_of_difference, elem_of_singleton.
  split; [by intros [? _]|by intros ?].
Qed.

(** The first [add] for a destination removes its out file when the
    file was in the directory at construction. *)
Lemma first_touch_files_new k s :
  dict_get k (Buffer._data s.2) = None →
  (k ∈ Buffer._fps s.2 → files (Buffer.first_touch k s).1 !! k = None)
  ∧ (k ∉ Buffer._fps s.2 →
     files (Buffer.first_touch k s).1 !! k = files s.1 !! k).
Proof.
  intros Hnew. destruct s as [w b]. unfold Buffer.first_touch. cbn in *.
  rewrite Hnew. destruct (decide (k ∈ Buffer._fps b)); cbn.
  - split; [|done]. intros _. apply lookup_delete_eq.
  - done.
Qed.

Lemma first_touch_seen k s :
  is_Some (dict_get k (Buffer._data s.2)) →
  Buffer.first_touch k s = s.
Proof.
  intros [q Hq]. destruct s as [w b]. unfold Buffer.first_touch.
  cbn in *. by rewrite Hq.
Qed.

Lemma appended_files elt k s :
  files (Buffer.appended elt k s).1 = files (Buffer.first_touch k s).1
  ∧ Buffer._fps (Buffer.appended elt k s).2
    = Buffer._fps (Buffer.first_touch k s).2.
Proof.
  unfold Buffer.appended. by destruct (Buffer.first_touch k s).
Qed.

(** The files after a flush that ends well. *)
Lemma save_ok_files k n (end_ : bool) s (q : list row) :
  io_ok s.1 →
  dict_get k (Buffer._data s.2) = Some q →
  let content := default [] (files s.1 !! Buffer.part_name k)
                 ++ (writerow (Buffer._dm s.2) <$> q) in
  files (Buffer._save k end_ s).1 !! n
  = if end_ then
      if decide (n = stem (Buffer.part_name k)) then Some content
      else if decide (n = Buffer.part_name k) then None
      else files s.1 !! n
    else
      if decide (n = Buffer.part_name k) then Some content
      else files s.1 !! n.
Proof.
  destruct s as [w b]. cbn. intros Hio Hq.
  destruct (next_io_ok w Hio) as (Ho & _ & Hfiles & _).
  unfold Buffer._save. rewrite Hq.
  destruct (next_io w) as [o w1]. cbn in Ho, Hfiles. subst o. cbn.
  rewrite Hfiles. destruct end_.
  - unfold rename. rewrite lookup_insert_eq.
    destruct (decide (n = stem (Buffer.part_name k))) as [->|Hn1].
    + by rewrite lookup_insert_eq.
    + rewrite lookup_insert_ne by done.
      destruct (decide (n = Buffer.part_name k)) as [->|Hn2].
      * by rewrite lookup_delete_eq.
      * by rewrite lookup_delete_ne, lookup_insert_ne.
  - destruct (decide (n = Buffer.part_name k)) as [->|Hn2].
    + by rewrite lookup_insert_eq.
    + by rewrite lookup_insert_ne.
Qed.

Lemma save_ok_files_add k n s (q : list row) :
  io_ok s.1 →
  dict_get k (Buffer._data s.2) = Some q →
  files (Buffer._save k false s).1 !! n
  = if decide (n = Buffer.part_name k)
    then Some (default [] (files s.1 !! Buffer.part_name k)
               ++ (writerow (Buffer._dm s.2) <$> q))
    else files s.1 !! n.
Proof. intros Hio Hq. by rewrite (save_ok_files k n false s q). Qed.

Lemma save_ok_files_end k n s (q : list row) :
  io_ok s.1 →
  dict_get k (Buffer._data s.2) = Some q →
  files (Buffer._save k true s).1 !! n
  = if decide (n = stem (Buffer.part_name k))
    then Some (default [] (files s.1 !! Buffer.part_name k)
               ++ (writerow (Buffer._dm s.2) <$> q))
    else if decide (n = Buffer.part_name k) then None
    else files s.1 !! n.
Proof. intros Hio Hq. by rewrite (save_ok_files k n true s q). Qed.
End FileFacts.

(** ** A run seen from one destination *)

Section RunFacts.
Context `{!Platform}.
Implicit Types (s : world * Buffer.t) (k n : string) (elt : row).

Lemma run_inv_init k w0 dm max_size :
  io_ok w0 → run_inv k w0 dm [] (w0, Buffer.init w0 dm max_size).
Proof.
  intros Hio. unfold run_inv. cbn. repeat split; try done.
  - by intros ?%elem_of_dom.
  - by intros ?%elem_of_dom.
Qed.

(** Nothing of [k] changes when a step leaves its two files, its queue
    and its place in [_fps] alone. *)
Lemma run_inv_frame k w0 dm rs s s' :
  run_inv k w0 dm rs s →
  io_ok s'.1 → Buffer._dm s'.2 = Buffer._dm s.2 →
  files s'.1 !! k = files s.1 !! k →
  files s'.1 !! Buffer.part_name k = files s.1 !! Buffer.part_name k →
  dict_get k (Buffer._data s'.2) = dict_get k (Buffer._data s.2) →
  (k ∈ Buffer._fps s'.2 ↔ k ∈ Buffer._fps s.2) →
  run_inv k w0 dm rs s'.
Proof.
  intros (Hio & Hdm & Hinv) Hio' Hdm' Hk Hpart Hq Hfps.
  unfold run_inv. rewrite Hq, Hk, Hpart, Hdm'.
  split; [done|]. split; [done|].
  destruct (dict_get k (Buffer._data s.2)); [done|].
  destruct Hinv as (? & ? & ? & Hw0). by rewrite Hfps.
Qed.

(** The state at the size check of an [add] to [k]. *)
Lemma run_inv_appended k w0 dm rs elt s :
  run_inv k w0 dm rs s →
  run_inv k w0 dm (rs ++ [elt]) (Buffer.appended elt k s).
Proof.
  intros (Hio & Hdm & Hinv).
  destruct (appended_frame elt k s) as (_ & Hdm1 & Hpend & _).
  destruct (appended_files elt k s) as (Hfiles & _).
  pose proof (appended_get elt k k s) as Hget.
  rewrite decide_True in Hget by done.
  destruct (first_touch_files_other k (Buffer.part_name k) s
              (part_name_ne k)) as (Hpart & _).
  unfold run_inv. rewrite Hget, Hfiles, Hpart, Hdm1.
  split; [unfold io_ok; by rewrite Hpend|]. split; [done|].
  unfold Buffer.queue.
  destruct (dict_get k (Buffer._data s.2)) as [q|] eqn:Hq.
  - destruct Hinv as (flushed & -> & Hne & Hk & Hcontent & Hsome).
    rewrite first_touch_seen by (by rewrite Hq).
    exists flushed. rewrite <- app_assoc. repeat split; try done.
    intros Heq. by apply app_eq_nil in Heq as [-> [-> [=]]%app_eq_nil].
  - destruct Hinv as (-> & Hk & Hpart0 & Hfps).
    destruct (first_touch_files_new k s Hq) as (Hin & Hout).
    exists []. cbn. rewrite Hpart0, app_nil_r.
    repeat split; try done.
    destruct (decide (k ∈ Buffer._fps s.2)) as [Hi|Hni]; [by apply Hin|].
    rewrite Hout, Hk by done.
    destruct (files w0 !! k) eqn:Hw0; [|done].
    exfalso. apply Hni, Hfps. eauto.
Qed.

(** A flush of [k] inside [add] that ends well. *)
Lemma run_inv_save k w0 dm rs s :
  run_inv k w0 dm rs s →
  is_Some (dict_get k (Buffer._data s.2)) →
  run_inv k w0 dm rs (Buffer._save k false s).
Proof.
  intros (Hio & Hdm & Hinv) [q Hq].
  destruct (save_frame k false s Hio) as (_ & Hdm1 & _ & Hio1 & _).
  pose proof (save_ok_get k k false s Hio (mk_is_Some _ _ Hq)) as Hget.
  rewrite decide_True in Hget by done.
  pose proof (save_ok_files_add k k s q Hio Hq) as Hk.
  pose proof (save_ok_files_add k (Buffer.part_name k) s q Hio Hq) as Hp.
  rewrite decide_False in Hk
    by (intros Heq; symmetry in Heq; by apply (part_name_ne k)).
  rewrite decide_True in Hp by done.
  unfold run_inv. rewrite Hget, Hk, Hp, Hdm1. rewrite Hq in Hinv.
  destruct Hinv as (flushed & -> & Hne & Hk0 & Hcontent & Hsome).
  split; [done|]. split; [done|].
  exists (flushed ++ q). rewrite app_nil_r. repeat split; try done.
  cbn. rewrite Hcontent, Hdm, fmap_app. by rewrite app_assoc.
Qed.

Lemma run_inv_add_self k w0 dm rs elt s :
  run_inv k w0 dm rs s →
  run_inv k w0 dm (rs ++ [elt]) (Buffer.add elt k s).
Proof.
  intros Hinv. unfold Buffer.add.
  pose proof (run_inv_appended k w0 dm rs elt s Hinv) as Hinv1.
  destruct (_ >? _); [|done].
  apply run_inv_save; [done|].
  pose proof (appended_get elt k k s) as Hget.
  rewrite decide_True in Hget by done. rewrite Hget. eauto.
Qed.

Lemma run_inv_add_other k k' w0 dm rs elt s :
  k' ≠ k → independent k k' →
  run_inv k w0 dm rs s →
  run_inv k w0 dm rs (Buffer.add elt k' s).
Proof.
  intros Hne [Hind1 Hind2] Hinv.
  pose proof Hinv as (Hio & _).
  destruct (appended_frame elt k' s) as (_ & Hdm1 & Hpend & _).
  destruct (appended_files elt k' s) as (Hfiles & Hfps).
  assert (Hio1 : io_ok (Buffer.appended elt k' s).1).
  { unfold io_ok. by rewrite Hpend. }
  assert (Hinv1 : run_inv k w0 dm rs (Buffer.appended elt k' s)).
  { eapply run_inv_frame; [exact Hinv|done|done|..].
    - rewrite Hfiles. by apply first_touch_files_other.
    - rewrite Hfiles. by apply first_touch_files_other.
    - rewrite appended_get. by rewrite decide_False.
    - rewrite Hfps. by apply first_touch_files_other. }
  unfold Buffer.add. destruct (_ >? _); [|done].
  assert (Hq : is_Some (dict_get k' (Buffer._data (Buffer.appended elt k' s).2))).
  { rewrite appended_get, decide_True by done. eauto. }
  destruct (save_frame k' false _ Hio1) as (_ & Hdm2 & Hfps2 & Hio2 & _).
  destruct Hq as [q Hq].
  eapply run_inv_frame; [exact Hinv1|done|done|..].
  - rewrite (save_ok_files_add k' k _ q Hio1 Hq).
    by rewrite decide_False.
  - rewrite (save_ok_files_add k' (Buffer.part_name k) _ q Hio1 Hq).
    rewrite decide_False; [done|]. by intros ?%part_name_inj.
  - rewrite save_ok_get by eauto. by rewrite decide_False.
  - by rewrite Hfps2.
Qed.

Lemma rows_for_snoc k (calls : list (row * string)) elt k' :
  rows_for k (calls ++ [(elt, k')])
  = rows_for k calls ++ (if decide (k' = k) then [elt] else []).
Proof.
  unfold rows_for. rewrite omap_app. cbn. by destruct (decide (k' = k)).
Qed.

Lemma adds_snoc (calls : list (row * string)) elt k s :
  Buffer.adds (calls ++ [(elt, k)]) s = Buffer.add elt k (Buffer.adds calls s).
Proof. unfold Buffer.adds. by rewrite foldl_snoc. Qed.

(** The invariant holds along every run whose other destinations are
    independent of [k]. *)
Lemma run_inv_adds k w0 dm max_size (calls : list (row * string)) :
  io_ok w0 →
  Forall (λ call, call.2 = k ∨ independent k call.2) calls →
  run_inv k w0 dm (rows_for k calls)
    (Buffer.adds calls (w0, Buffer.init w0 dm max_size)).
Proof.
  intros Hio. induction calls as [|[elt k'] calls IH] using rev_ind.
  - intros _. by apply run_inv_init.
  - intros [Hcalls Hcall%Forall_inv]%Forall_app.
    rewrite rows_for_snoc, adds_snoc. cbn in Hcall.
    destruct (decide (k' = k)) as [->|Hne].
    + by apply run_inv_add_self, IH.
    + rewrite app_nil_r. destruct Hcall as [?|Hind]; [done|].
      by apply run_inv_add_other, IH.
Qed.
End RunFacts.

(** ** Finalizing a run *)

Section ClearFacts.
Context `{!Platform}.
Implicit Types (s : world * Buffer.t) (k n : string) (elt : row).

Lemma clear_files s :
  files (Buffer.clear s).1 = files (flush_all (dict_keys (Buffer._data s.2)) s).1.
Proof. unfold Buffer.clear, flush_all. by destruct (foldl _ _ _). Qed.

Lemma save_keys k end_ s :
  dict_keys (Buffer._data (Buffer._save k end_ s).2)
  = dict_keys (Buffer._data s.2).
Proof.
  destruct s as [w b]. unfold Buffer._save.
  destruct (dict_get k (Buffer._data b)); [|done].
  destruct (next_io w) as [[| |written] w1]; cbn; [|done..].
  apply dict_keys_alter.
Qed.

Lemma appended_keys elt k s :
  dict_keys (Buffer._data (Buffer.appended elt k s).2)
  = if decide (k ∈ dict_keys (Buffer._data s.2))
    then dict_keys (Buffer._data s.2)
    else dict_keys (Buffer._data s.2) ++ [k].
Proof.
  unfold Buffer.appended.
  pose proof (first_touch_get elt k k s) as Hget.
  rewrite decide_True in Hget by done.
  assert (Hkeys : dict_keys (Buffer._data (Buffer.first_touch k s).2)
    = if decide (k ∈ dict_keys (Buffer._data s.2))
      then dict_keys (Buffer._data s.2)
      else dict_keys (Buffer._data s.2) ++ [k]).
  { destruct s as [w b]. unfold Buffer.first_touch. cbn.
    destruct (decide (k ∈ dict_keys (Buffer._data b))) as [Hin|Hin];
      rewrite <- dict_get_keys in Hin.
    - destruct Hin as [q Hq]. by rewrite Hq.
    - destruct (dict_get k (Buffer._data b)) as [q|] eqn:Hq.
      { exfalso. apply Hin. eauto. }
      unfold dict_set. rewrite Hq.
      destruct (decide (k ∈ Buffer._fps b)); cbn;
        unfold dict_keys; by rewrite fmap_app. }
  destruct (Buffer.first_touch k s) as [w1 b1]. cbn in *.
  unfold Buffer.setdefault_append. rewrite Hget.
  pose proof (dict_keys_alter (λ q, q ++ [elt]) k (Buffer._data b1)) as Ha.
  unfold dict_keys in *. by rewrite Ha.
Qed.

Lemma add_keys elt k s :
  dict_keys (Buffer._data (Buffer.add elt k s).2)
  = if decide (k ∈ dict_keys (Buffer._data s.2))
    then dict_keys (Buffer._data s.2)
    else dict_keys (Buffer._data s.2) ++ [k].
Proof.
  unfold Buffer.add. destruct (_ >? _); rewrite ?save_keys;
    apply appended_keys.
Qed.

(** The keys of the queues are distinct, and they are destinations of
    the run. *)
Lemma adds_keys (calls : list (row * string)) w0 dm max_size :
  let s := Buffer.adds calls (w0, Buffer.init w0 dm max_size) in
  NoDup (dict_keys (Buffer._data s.2))
  ∧ ∀ k, k ∈ dict_keys (Buffer._data s.2) ↔ k ∈ calls.*2.
Proof.
  induction calls as [|[elt k'] calls IH] using rev_ind.
  - cbn. split; [constructor|]. done.
  - cbn zeta in *. rewrite adds_snoc, add_keys. destruct IH as [Hnd Hin].
    rewrite fmap_app. cbn.
    destruct (decide (k' ∈ _)) as [Hk'|Hk'].
    + split; [done|]. intros k. rewrite elem_of_app, list_elem_of_singleton.
      rewrite <- Hin. split; [by left|]. by intros [?| ->].
    + split.
      * apply NoDup_app. split; [done|]. split; [|apply NoDup_singleton].
        by intros k Hk ->%list_elem_of_singleton.
      * intros k. rewrite !elem_of_app, Hin. done.
Qed.

(** Finalizing another destination leaves [k] alone. *)
Lemma save_end_other k k' s :
  k' ≠ k → independent k k' → io_ok s.1 →
  is_Some (dict_get k' (Buffer._data s.2)) →
  let s' := Buffer._save k' true s in
  io_ok s'.1 ∧ Buffer._dm s'.2 = Buffer._dm s.2
  ∧ files s'.1 !! k = files s.1 !! k
  ∧ files s'.1 !! Buffer.part_name k = files s.1 !! Buffer.part_name k
  ∧ dict_get k (Buffer._data s'.2) = dict_get k (Buffer._data s.2).
Proof.
  intros Hne [Hind1 Hind2] Hio [q Hq]. cbn zeta.
  destruct (save_frame k' true s Hio) as (_ & Hdm & _ & Hio1 & _).
  split; [done|]. split; [done|].
  rewrite !(save_ok_files_end k' _ s q Hio Hq).
  rewrite save_ok_get by eauto.
  pose proof (part_name_inj k k') as Hinj.
  destruct (stem_part_name_cases k') as [-> | ->];
    rewrite !decide_False by naive_solver; done.
Qed.

Lemma flush_all_other k (ks : list string) s :
  io_ok s.1 →
  Forall (λ k', k' ≠ k ∧ independent k k'
                ∧ is_Some (dict_get k' (Buffer._data s.2))) ks →
  let s' := flush_all ks s in
  io_ok s'.1 ∧ Buffer._dm s'.2 = Buffer._dm s.2
  ∧ files s'.1 !! k = files s.1 !! k
  ∧ files s'.1 !! Buffer.part_name k = files s.1 !! Buffer.part_name k
  ∧ dict_get k (Buffer._data s'.2) = dict_get k (Buffer._data s.2).
Proof.
  revert s. induction ks as [|k' ks IH]; intros s Hio Hks; [done|].
  apply Forall_cons in Hks as [(Hne & Hind & Hsome) Hks].
  destruct (save_end_other k k' s Hne Hind Hio Hsome)
    as (Hio1 & Hdm1 & Hk1 & Hp1 & Hq1).
  cbn. destruct (IH (Buffer._save k' true s) Hio1) as (? & ? & ? & ? & ?).
  - eapply Forall_impl; [exact Hks|]. cbn.
    intros k'' (? & ? & Hs). split; [done|]. split; [done|].
    rewrite save_ok_get by done. by destruct (decide (k' = k'')).
  - unfold flush_all in *. cbn zeta in *.
    repeat split; try done; etrans; eassumption.
Qed.

(** Finalizing [k] among other destinations: the out file holds what
    the in-progress file held, then the queue. *)
Lemma flush_all_self k (ks : list string) s :
  k ≠ EmptyString → io_ok s.1 → NoDup ks → k ∈ ks →
  Forall (λ k', (k' = k ∨ independent k k')
                ∧ is_Some (dict_get k' (Buffer._data s.2))) ks →
  let s' := flush_all ks s in
  files s'.1 !! k
  = Some (default [] (files s.1 !! Buffer.part_name k)
          ++ (writerow (Buffer._dm s.2) <$> Buffer.queue k s.2))
  ∧ files s'.1 !! Buffer.part_name k = None.
Proof.
  intros Hk. revert s.
  induction ks as [|k' ks IH]; intros s Hio Hnd Hin Hks.
  { by apply elem_of_nil in Hin. }
  apply NoDup_cons in Hnd as [Hk' Hnd].
  apply Forall_cons in Hks as [(Hind & [q Hq]) Hks].
  assert (Hks1 : Forall (λ k'', (k'' = k ∨ independent k k'')
      ∧ is_Some (dict_get k'' (Buffer._data (Buffer._save k' true s).2))) ks).
  { eapply Forall_impl; [exact Hks|]. cbn. intros k'' (? & Hs).
    split; [done|]. rewrite save_ok_get by eauto.
    by destruct (decide (k' = k'')). }
  destruct (save_frame k' true s Hio) as (_ & Hdm & _ & Hio1 & _).
  change (flush_all (k' :: ks) s)
    with (flush_all ks (Buffer._save k' true s)).
  cbn zeta in *.
  destruct (decide (k' = k)) as [->|Hne].
  - destruct (flush_all_other k ks (Buffer._save k true s) Hio1)
      as (_ & _ & Hf & Hp & _).
    { apply Forall_forall. intros k'' Hk''.
      pose proof (proj1 (Forall_forall _ _) Hks1 _ Hk'') as (Hor & Hs).
      assert (k'' ≠ k) by (by intros ->).
      by destruct Hor. }
    cbn zeta in *. rewrite Hf, Hp.
    rewrite !(save_ok_files_end k _ s q Hio Hq), stem_part_name by done.
    rewrite decide_True by done.
    rewrite decide_False by apply part_name_ne.
    rewrite decide_True by done.
    unfold Buffer.queue. by rewrite Hq.
  - destruct Hind as [?|Hind]; [done|].
    apply elem_of_cons in Hin as [?|Hin]; [done|].
    destruct (save_end_other k k' s Hne Hind Hio (mk_is_Some _ _ Hq))
      as (_ & _ & Hf & Hp & Hget).
    destruct (IH (Buffer._save k' true s) Hio1 Hnd Hin Hks1) as [-> ->].
    unfold Buffer.queue. by rewrite Hp, Hget, Hdm.
Qed.

(** The out file of [k] after a run and [clear], when the writes end
    well: what the in-progress file of [k] held when the buffer was
    constructed, then the records of the run for [k], in order. *)
Lemma run_final_file k w0 dm max_size (calls : list (row * string)) :
  k ≠ EmptyString → io_ok w0 →
  Forall (λ call, call.2 = k ∨ independent k call.2) calls →
  rows_for k calls ≠ [] →
  let s := Buffer.clear (Buffer.adds calls (w0, Buffer.init w0 dm max_size)) in
  files s.1 !! k
  = Some (default [] (files w0 !! Buffer.part_name k)
          ++ (writerow dm <$> rows_for k calls))
  ∧ files s.1 !! Buffer.part_name k = None.
Proof.
  intros Hk Hio Hcalls Hrows. cbn zeta. rewrite clear_files.
  pose proof (run_inv_adds k w0 dm max_size calls Hio Hcalls)
    as (Hio1 & Hdm & Hinv).
  destruct (adds_keys calls w0 dm max_size) as [Hnd Hkeys].
  set (s := Buffer.adds calls (w0, Buffer.init w0 dm max_size)) in *.
  destruct (dict_get k (Buffer._data s.2)) as [q|] eqn:Hq;
    [|by destruct Hinv].
  destruct Hinv as (flushed & Hrs & _ & _ & Hcontent & _).
  destruct (flush_all_self k (dict_keys (Buffer._data s.2)) s)
    as [-> ->]; try done.
  - apply dict_get_keys. by rewrite Hq.
  - apply Forall_forall. intros k' Hk'. split.
    + apply Hkeys, list_elem_of_fmap in Hk' as ([elt k''] & -> & Hcall).
      by apply (proj1 (Forall_forall _ _) Hcalls) in Hcall.
    + by apply dict_get_keys.
  - split; [|done]. unfold Buffer.queue. rewrite Hq. cbn.
    by rewrite Hcontent, Hdm, Hrs, fmap_app, app_assoc.
Qed.
End ClearFacts.

(** ** An in-progress file left by an earlier run

    Whatever the outcomes of the writes. *)

Section StaleFacts.
Context `{!Platform}.
Implicit Types (s : world * Buffer.t) (k n : string) (elt : row).

Lemma next_io_files w : files (next_io w).2 = files w.
Proof. unfold next_io. by destruct (pending_io w). Qed.

Lemma save_add_files_frame k' n s :
  n ≠ Buffer.part_name k' →
  files (Buffer._save k' false s).1 !! n = files s.1 !! n.
Proof.
  intros Hn. destruct s as [w b]. unfold Buffer._save.
  destruct (dict_get k' (Buffer._data b)); [|done].
  pose proof (next_io_files w) as Hfs.
  destruct (next_io w) as [[| |written] w1]; cbn in *; rewrite ?Hfs;
    by rewrite ?lookup_insert_ne.
Qed.

Lemma save_end_files_frame k' n s :
  n ≠ Buffer.part_name k' → n ≠ stem (Buffer.part_name k') →
  files (Buffer._save k' true s).1 !! n = files s.1 !! n.
Proof.
  intros Hn Hstem. destruct s as [w b]. unfold Buffer._save.
  destruct (dict_get k' (Buffer._data b)); [|done].
  pose proof (next_io_files w) as Hfs.
  destruct (next_io w) as [[| |written] w1]; cbn in *; rewrite ?Hfs.
  - unfold rename. rewrite lookup_insert_eq.
    by rewrite lookup_insert_ne, lookup_delete_ne, lookup_insert_ne.
  - done.
  - by rewrite lookup_insert_ne.
Qed.

(** A flush inside [add] only adds lines to the in-progress file. *)
Lemma save_add_part_kept k stale s :
  part_kept k stale (files s.1) →
  part_kept k stale (files (Buffer._save k false s).1).
Proof.
  intros [more Hmore]. destruct s as [w b]. unfold Buffer._save.
  destruct (dict_get k (Buffer._data b)) as [q|]; [|by exists more].
  pose proof (next_io_files w) as Hfs. cbn in Hmore. rewrite Hmore.
  destruct (next_io w) as [[| |written] w1]; cbn in *; unfold part_kept;
    rewrite ?Hfs, ?lookup_insert_eq.
  - eexists. by rewrite <- app_assoc.
  - by exists more.
  - eexists. by rewrite <- app_assoc.
Qed.

(** The flush of [clear] adds lines to the in-progress file and, when it
    ends well, makes it the out file. *)
Lemma save_end_part_kept k stale s :
  k ≠ EmptyString →
  part_kept k stale (files s.1) →
  part_kept k stale (files (Buffer._save k true s).1)
  ∨ ∃ more, files (Buffer._save k true s).1 !! k = Some (stale ++ more).
Proof.
  intros Hk [more Hmore]. destruct s as [w b]. unfold Buffer._save.
  destruct (dict_get k (Buffer._data b)) as [q|]; [|left; by exists more].
  pose proof (next_io_files w) as Hfs. cbn in Hmore. rewrite Hmore.
  destruct (next_io w) as [[| |written] w1]; cbn in *; unfold part_kept;
    rewrite ?Hfs.
  - right. unfold rename. rewrite lookup_insert_eq, stem_part_name by done.
    rewrite lookup_insert_eq. eexists. by rewrite <- app_assoc.
  - left. by exists more.
  - left. rewrite lookup_insert_eq. eexists. by rewrite <- app_assoc.
Qed.

Lemma add_part_kept k k' stale elt s :
  k' = k ∨ independent k k' →
  part_kept k stale (files s.1) →
  part_kept k stale (files (Buffer.add elt k' s).1).
Proof.
  intros Hk' Hkept.
  assert (Hne : Buffer.part_name k ≠ k').
  { destruct Hk' as [->|[? ?]]; [apply part_name_ne|done]. }
  assert (Hkept1 : part_kept k stale (files (Buffer.appended elt k' s).1)).
  { destruct (appended_files elt k' s) as [-> _]. unfold part_kept.
    by rewrite (proj1 (first_touch_files_other k' _ s Hne)). }
  unfold Buffer.add. destruct (_ >? _); [|done].
  destruct (decide (k' = k)) as [->|Hkk].
  - by apply save_add_part_kept.
  - unfold part_kept. rewrite save_add_files_frame; [done|].
    by intros ?%part_name_inj.
Qed.

Lemma adds_part_kept k stale (calls : list (row * string)) s :
  Forall (λ call, call.2 = k ∨ independent k call.2) calls →
  part_kept k stale (files s.1) →
  part_kept k stale (files (Buffer.adds calls s).1).
Proof.
  revert s. induction calls as [|[elt k'] calls IH]; intros s Hcalls Hkept;
    [done|].
  apply Forall_cons in Hcalls as [Hcall Hcalls]. cbn.
  apply IH; [done|]. by apply add_part_kept.
Qed.

(** The two files of [k] are not the two files [clear] touches for an
    independent destination [k']. *)
Lemma independent_names k k' :
  k' ≠ k → independent k k' →
  k ≠ Buffer.part_name k' ∧ k ≠ stem (Buffer.part_name k')
  ∧ Buffer.part_name k ≠ Buffer.part_name k'
  ∧ Buffer.part_name k ≠ stem (Buffer.part_name k').
Proof.
  intros Hne [Hind1 Hind2].
  assert (Hinj : Buffer.part_name k ≠ Buffer.part_name k').
  { intros Heq%part_name_inj. by apply Hne. }
  assert (Hk : k ≠ Buffer.part_name k') by (intros Heq; by apply Hind2).
  assert (Hp : Buffer.part_name k ≠ k') by (intros Heq; by apply Hind1).
  assert (Hne' : k ≠ k') by (intros Heq; by apply Hne).
  by destruct (stem_part_name_cases k') as [-> | ->].
Qed.

Lemma flush_all_frame k (ks : list string) s :
  Forall (λ k', k' ≠ k ∧ independent k k') ks →
  files (flush_all ks s).1 !! k = files s.1 !! k
  ∧ files (flush_all ks s).1 !! Buffer.part_name k
    = files s.1 !! Buffer.part_name k.
Proof.
  revert s. induction ks as [|k' ks IH]; intros s Hks; [done|].
  apply Forall_cons in Hks as [(Hne & Hind) Hks].
  change (flush_all (k' :: ks) s)
    with (flush_all ks (Buffer._save k' true s)).
  destruct (IH (Buffer._save k' true s) Hks) as [-> ->].
  destruct (independent_names k k' Hne Hind) as (? & ? & ? & ?).
  by rewrite !save_end_files_frame.
Qed.

Lemma flush_all_part_kept k stale (ks : list string) s :
  k ≠ EmptyString → NoDup ks →
  Forall (λ k', k' = k ∨ independent k k') ks →
  part_kept k stale (files s.1) →
  part_kept k stale (files (flush_all ks s).1)
  ∨ ∃ more, files (flush_all ks s).1 !! k = Some (stale ++ more).
Proof.
  intros Hk. revert s.
  induction ks as [|k' ks IH]; intros s Hnd Hks Hkept; [by left|].
  apply NoDup_cons in Hnd as [Hk' Hnd].
  apply Forall_cons in Hks as [Hind Hks].
  change (flush_all (k' :: ks) s)
    with (flush_all ks (Buffer._save k' true s)).
  destruct (decide (k' = k)) as [->|Hne].
  - assert (Hothers : Forall (λ k', k' ≠ k ∧ independent k k') ks).
    { apply Forall_forall. intros k'' Hk''.
      pose proof (proj1 (Forall_forall _ _) Hks _ Hk'') as Hor.
      assert (k'' ≠ k) by (by intros ->). by destruct Hor. }
    destruct (flush_all_frame k ks (Buffer._save k true s) Hothers)
      as [Hf Hp].
    unfold part_kept. rewrite Hf, Hp.
    by apply save_end_part_kept.
  - destruct Hind as [?|Hind]; [done|].
    apply IH; [done..|]. unfold part_kept.
    destruct (independent_names k k' Hne Hind) as (? & ? & ? & ?).
    by rewrite save_end_files_frame.
Qed.
End StaleFacts.

Section AcrossRuns.
Context `{!Platform}.
Implicit Types (k : string) (calls : list (row * string)).

Lemma rows_for_unseen k calls : k ∉ calls.*2 → rows_for k calls = [].
Proof.
  unfold rows_for. induction calls as [|[elt k'] calls IH]; [done|].
  cbn. intros [Hne Hin]%not_elem_of_cons.
  rewrite decide_False by done. by apply IH.
Qed.

(** C5, as the code has it.  An out file that is in the directory when
    the buffer is constructed is removed by the first [add] for its
    destination, before the record is appended to the queue.  When, in
    addition, the destination has no in-progress file at that moment
    and the writes of the run end well, a run that adds the two records
    [r1] and [r2] to the destination, and any records to destinations
    independent of it, leaves after [clear] an out file of exactly the
    lines of [r1] and [r2]. *)
Theorem no_mixing_across_runs k (w0 : world) (dm : ascii) (max_size : Z)
    calls (prior : list string) (r1 r2 : row) :
  k ≠ EmptyString →
  io_ok w0 →
  files w0 !! k = Some prior →
  files w0 !! Buffer.part_name k = None →
  Forall (λ call, call.2 = k ∨ independent k call.2) calls →
  rows_for k calls = [r1; r2] →
  let s0 := (w0, Buffer.init w0 dm max_size) in
  (∀ calls0 elt calls1,
      calls = calls0 ++ (elt, k) :: calls1 → k ∉ calls0.*2 →
      let s := Buffer.first_touch k (Buffer.adds calls0 s0) in
      files s.1 !! k = None ∧ Buffer.queue k s.2 = [])
  ∧ files (Buffer.clear (Buffer.adds calls s0)).1 !! k
    = Some [writerow dm r1; writerow dm r2].
Proof.
  intros Hk Hio Hprior Hpart Hcalls Hrows s0. split.
  - intros calls0 elt calls1 -> Hunseen.
    apply Forall_app in Hcalls as [Hcalls0 _].
    pose proof (run_inv_adds k w0 dm max_size calls0 Hio Hcalls0)
      as (_ & _ & Hinv).
    rewrite rows_for_unseen in Hinv by done. fold s0 in Hinv.
    destruct (dict_get k (Buffer._data (Buffer.adds calls0 s0).2))
      as [q|] eqn:Hq.
    { by destruct Hinv as (? & _ & ? & _). }
    destruct Hinv as (_ & _ & _ & Hfps).
    destruct (first_touch_files_new k _ Hq) as [Hdel _].
    split.
    + apply Hdel, Hfps. by rewrite Hprior.
    + unfold Buffer.queue. rewrite (first_touch_get [] k k).
      rewrite decide_True by done. unfold Buffer.queue. by rewrite Hq.
  - unfold s0.
    destruct (run_final_file k w0 dm max_size calls) as [-> _];
      try done.
    + by rewrite Hrows.
    + by rewrite Hpart, Hrows.
Qed.

(** C9.  The removal that the first [add] for a destination performs
    touches no file but the out file of that name.  An in-progress file
    of the destination that is in the directory when the buffer is
    constructed is never removed along the run: whatever the outcomes of
    the writes, every flush only adds lines after the ones it held, and
    [clear] leaves those lines at the head of the out file, or of the
    in-progress file when its last flush failed.  When the writes end
    well and the run adds records to the destination, the out file after
    [clear] holds the lines the in-progress file held before the run,
    then the records of the run. *)
Theorem stale_part_file_kept k (w0 : world) (dm : ascii) (max_size : Z)
    calls (stale : list string) :
  k ≠ EmptyString →
  files w0 !! Buffer.part_name k = Some stale →
  Forall (λ call, call.2 = k ∨ independent k call.2) calls →
  let s0 := (w0, Buffer.init w0 dm max_size) in
  let final := files (Buffer.clear (Buffer.adds calls s0)).1 in
  (∀ s n, n ≠ k → files (Buffer.first_touch k s).1 !! n = files s.1 !! n)
  ∧ (∀ calls0 calls1, calls = calls0 ++ calls1 →
       part_kept k stale (files (Buffer.adds calls0 s0).1))
  ∧ (part_kept k stale final ∨ ∃ more, final !! k = Some (stale ++ more))
  ∧ (io_ok w0 → rows_for k calls ≠ [] →
     final !! k = Some (stale ++ (writerow dm <$> rows_for k calls))).
Proof.
  intros Hk Hstale Hcalls s0 final.
  assert (Hkept0 : part_kept k stale (files s0.1)).
  { exists []. by rewrite app_nil_r. }
  split; [|split; [|split]].
  - intros s n Hn. by apply first_touch_files_other.
  - intros calls0 calls1 ->.
    apply Forall_app in Hcalls as [Hcalls0 _].
    by apply adds_part_kept.
  - unfold final. rewrite clear_files.
    destruct (adds_keys calls w0 dm max_size) as [Hnd Hkeys].
    apply flush_all_part_kept; [done|done| |by apply adds_part_kept].
    apply Forall_forall. intros k' Hk'.
    apply Hkeys, list_elem_of_fmap in Hk' as ([elt k''] & -> & Hcall).
    by apply (proj1 (Forall_forall _ _) Hcalls) in Hcall.
  - intros Hio Hrows. unfold final, s0.
    destruct (run_final_file k w0 dm max_size calls) as [-> _]; try done.
    by rewrite Hstale.
Qed.
End AcrossRuns.

Lemma no_mixing_across_runs_witness :
  let k := "en-fr_links.tsv" in
  let prior := ["1" +:+ String tab "7"; "2" +:+ String tab "8";
                "3" +:+ String tab "9"] in
  let w0 := World {[ k := prior ]} [] [] in
  let calls := [(["4"; "5"], k); (["6"; "7"], k)] in
  files (Buffer.clear
           (Buffer.adds calls (w0, Buffer.init w0 tab Buffer.default_max_size))).1
    !! k
  = Some ["4" +:+ String tab "5"; "6" +:+ String tab "7"].
Proof.
  intros k prior w0 calls.
  refine (proj2 (no_mixing_across_runs k w0 tab Buffer.default_max_size calls
                   prior ["4"; "5"] ["6"; "7"] _ _ _ _ _ _)).
  - discriminate.
  - constructor.
  - vm_compute. reflexivity.
  - vm_compute. reflexivity.
  - repeat constructor.
  - vm_compute. reflexivity.
Defined.

(** C5, as stated, fails when an in-progress file of the destination is
    in the directory: its line comes first in the out file of the run. *)
Lemma mixing_with_stale_part_file :
  let k := "en-fr_links.tsv" in
  let prior := ["1" +:+ String tab "7"; "2" +:+ String tab "8";
                "3" +:+ String tab "9"] in
  let stale := ["9" +:+ String tab "9"] in
  let w0 := World {[ k := prior; Buffer.part_name k := stale ]} [] [] in
  let calls := [(["4"; "5"], k); (["6"; "7"], k)] in
  let s := Buffer.clear
             (Buffer.adds calls (w0, Buffer.init w0 tab Buffer.default_max_size)) in
  io_ok w0
  ∧ rows_for k calls = [["4"; "5"]; ["6"; "7"]]
  ∧ files s.1 !! k
    = Some ["9" +:+ String tab "9"; "4" +:+ String tab "5";
            "6" +:+ String tab "7"]
  ∧ files s.1 !! k
    ≠ Some [writerow tab ["4"; "5"]; writerow tab ["6"; "7"]].
Proof.
  split; [constructor|]. vm_compute. by repeat split.
Qed.

Lemma stale_part_file_kept_witness :
  let k := "en-fr_links.tsv" in
  let stale := ["9" +:+ String tab "9"] in
  let w0 := World {[ Buffer.part_name k := stale ]} [] [] in
  let calls := [(["4"; "5"], k); (["6"; "7"], "en-de_links.tsv")] in
  let s0 := (w0, Buffer.init w0 tab Buffer.default_max_size) in
  part_kept k stale (files (Buffer.adds calls s0).1)
  ∧ files (Buffer.clear (Buffer.adds calls s0)).1 !! k
    = Some ["9" +:+ String tab "9"; "4" +:+ String tab "5"].
Proof.
  intros k stale w0 calls s0.
  destruct (stale_part_file_kept k w0 tab Buffer.default_max_size calls stale)
    as (_ & Hrun & _ & Hfinal).
  - discriminate.
  - vm_compute. reflexivity.
  - constructor; [by left|]. constructor; [|constructor].
    right. split; vm_compute; discriminate.
  - split.
    + apply (Hrun calls []). by rewrite app_nil_r.
    + assert (Hio : io_ok w0) by constructor.
      assert (Hrows : rows_for k calls ≠ []) by (vm_compute; discriminate).
      exact (Hfinal Hio Hrows).
Defined.

(** * Further properties *)

(** ** The reader, row by row *)

Lemma reader_loop_cons (n : Z) (d : ascii) (tc : option Z) (row0 : row)
    (rest : list row) (real_row : row) :
  reader_loop n d tc (row0 :: rest) real_row
  = match regroup n d tc row0 with
    | Raise e => ([], Some e)
    | Ok row1 =>
        if Z.of_nat (length row1) =? n then
          if nonempty real_row
          then emit (Yield real_row) (reader_loop n d tc rest row1)
          else reader_loop n d tc rest row1
        else if (length row1 =? 1)%nat && nonempty real_row then
          reader_loop n d tc rest
            (append_to_last real_row (" " +:+ hd EmptyString row1))
        else if negb (nonempty row1) && nonempty real_row then
          reader_loop n d tc rest (append_to_last real_row " ")
        else
          emit (Log (DEBUG, MsgRowSkipped row1))
            (reader_loop n d tc rest real_row)
    end.
Proof. reflexivity. Qed.

Lemma nonempty_spec {A} (l : list A) : nonempty l = true ↔ l ≠ [].
Proof. by destruct l. Qed.

Lemma append_to_last_snoc (l : row) (x s : string) :
  append_to_last (l ++ [x]) s = l ++ [x +:+ s].
Proof.
  unfold append_to_last. rewrite reverse_snoc. by rewrite reverse_involutive.
Qed.

Lemma append_to_last_length (r : row) (s : string) :
  length (append_to_last r s) = length r.
Proof.
  destruct r as [|x l _] using rev_ind; [done|].
  rewrite append_to_last_snoc. by rewrite !length_app.
Qed.


Lemma string_app_assoc (a b c : string) : (a +:+ b) +:+ c = a +:+ (b +:+ c).
Proof.
  induction a as [|x a IH]; [done|].
  rewrite !string_app_cons. by rewrite IH.
Qed.





(** X1.  Every record [custom_reader] yields has as many fields as the
    first row of the file, whatever the lines and the text column, also
    when the iteration ends with an exception. *)
Theorem reader_yields_nb_cols (lines : list string) (d : ascii)
    (tc : option Z) :
  Forall (λ r, length r = length (csv_parse_line d (hd EmptyString lines)))
    (yields (custom_reader lines d tc)).
Proof.
  destruct lines as [|first lines]; [by constructor|].
  unfold custom_reader. cbn [hd].
  set (n := length (csv_parse_line d first)).
  generalize (csv_parse_line d <$> first :: lines). intros rows.
  assert (Hinv : ∀ real_row : row,
    real_row = [] ∨ length real_row = n →
    Forall (λ r, length r = n)
      (yields (reader_loop (Z.of_nat n) d tc rows real_row))).
  { induction rows as [|row0 rows IH]; intros real_row Hrr.
    - cbn. destruct real_row; cbn; [constructor|].
      destruct Hrr as [?|Hrr]; [done|]. by repeat constructor.
    - rewrite reader_loop_cons.
      destruct (regroup (Z.of_nat n) d tc row0) as [row1|e]; [|constructor].
      assert (Hrr' : nonempty real_row = true → length real_row = n).
      { intros Hne%nonempty_spec. by destruct Hrr. }
      destruct (Z.eqb_spec (Z.of_nat (length row1)) (Z.of_nat n)).
      + destruct (nonempty real_row) eqn:Hne.
        * unfold yields, emit. cbn [fst omap]. apply Forall_cons. split.
          { by apply Hrr'. }
          apply IH. right. lia.
        * apply IH. right. lia.
      + destruct (nonempty real_row) eqn:Hne;
          rewrite ?andb_true_r, ?andb_false_r.
        * destruct (length row1 =? 1)%nat;
            [apply IH; right; rewrite append_to_last_length; by apply Hrr'|].
          destruct (negb (nonempty row1));
            [apply IH; right; rewrite append_to_last_length; by apply Hrr'|].
          apply (IH real_row Hrr).
        * apply (IH real_row Hrr). }
  apply Hinv. by left.
Qed.





Lemma custom_reader_cons (first : string) (lines : list string) (d : ascii)
    (tc : option Z) :
  custom_reader (first :: lines) d tc
  = reader_loop (Z.of_nat (length (csv_parse_line d first))) d tc
      (csv_parse_line d <$> first :: lines) [].
Proof. reflexivity. Qed.







(** ** [unsplit_field] on any row *)




(** X5.  On a row with more fields than [nb_cols] and a text column
    within the column count (counted from the start or, negative, from
    the end), [unsplit_field] returns a row of exactly [nb_cols] fields:
    the fields before the text column as they are, the text column and
    the surplus fields after it joined by the delimiter, and the fields
    that remain, in order. *)
Theorem unsplit_field_shape (row0 : row) (nb_cols : nat) (d : ascii)
    (t : Z) (i : nat) :
  (nb_cols < length row0)%nat →
  (i < nb_cols)%nat →
  t = Z.of_nat i ∨ t = Z.of_nat i - Z.of_nat nb_cols →
  let surplus := (length row0 - nb_cols)%nat in
  let merged :=
    take i row0
    ++ str_join (str1 d) (take (S surplus) (drop i row0))
    :: drop (i + S surplus) row0 in
  unsplit_field row0 (Z.of_nat nb_cols) d t = Ok merged
  ∧ length merged = nb_cols.
Proof.
  intros Hlen Hi Ht surplus merged.
  assert (Hparts : row0 = take i row0 ++ take (S surplus) (drop i row0)
                          ++ drop (i + S surplus) row0).
  { rewrite <- (take_drop i row0) at 1. f_equal.
    rewrite <- (take_drop (S surplus) (drop i row0)) at 1. f_equal.
    by rewrite drop_drop. }
  assert (Hpre : length (take i row0) = i) by (rewrite length_take; lia).
  assert (Hpost : length (drop (i + S surplus) row0)
                  = (nb_cols - i - 1)%nat).
  { rewrite length_drop. unfold surplus. lia. }
  split.
  - rewrite Hparts at 1.
    replace (Z.of_nat nb_cols)
      with (Z.of_nat (length (take i row0) + 1
                      + length (drop (i + S surplus) row0))) by lia.
    apply unsplit_field_fragments.
    + rewrite length_take, length_drop. unfold surplus. lia.
    + rewrite Hpre, Hpost.
      replace (Z.of_nat (i + 1 + (nb_cols - i - 1))) with (Z.of_nat nb_cols)
        by lia.
      done.
  - unfold merged. rewrite length_app. cbn. lia.
Qed.

Lemma unsplit_field_shape_witness :
  unsplit_field ["1"; "a"; "b"; "c"; "z"] 3 tab 1
  = Ok ["1"; "a" +:+ String tab "b" +:+ String tab "c"; "z"].
Proof.
  assert (H1 : (3 < length ["1"; "a"; "b"; "c"; "z"])%nat) by (cbn; lia).
  assert (H2 : (1 < 3)%nat) by lia.
  assert (H3 : 1 = Z.of_nat 1 ∨ 1 = Z.of_nat 1 - Z.of_nat 3) by (by left).
  exact (proj1 (unsplit_field_shape ["1"; "a"; "b"; "c"; "z"] 3 tab 1 1
                  H1 H2 H3)).
Defined.

(** X6.  On a row with more fields than [nb_cols], a text column index at
    or past the length of the row makes [unsplit_field] raise
    [IndexError], and the iteration of the reader ends with it at that
    row. *)
Theorem unsplit_field_index_error (row0 : row) (nb_cols : Z) (d : ascii)
    (t : Z) (rest : list row) (real_row : row) :
  0 ≤ nb_cols < Z.of_nat (length row0) →
  Z.of_nat (length row0) ≤ t →
  unsplit_field row0 nb_cols d t = Raise IndexError
  ∧ reader_loop nb_cols d (Some t) (row0 :: rest) real_row
    = ([], Some IndexError).
Proof.
  intros Hlen Ht.
  assert (Hraise : unsplit_field row0 nb_cols d t = Raise IndexError).
  { unfold unsplit_field.
    destruct (Z.ltb_spec t 0); [lia|].
    destruct (Z.ltb_spec 0 (Z.of_nat (length row0) - nb_cols)); [|lia].
    unfold py_setitem, py_index.
    destruct (Z.ltb_spec t 0); [lia|].
    destruct (Z.ltb_spec t (Z.of_nat (length row0))); [lia|].
    by rewrite andb_false_r. }
  split; [done|]. rewrite reader_loop_cons. unfold regroup. cbn.
  destruct (Z.eqb_spec t 0); [lia|]. by rewrite Hraise.
Qed.

Lemma unsplit_field_index_error_witness :
  unsplit_field ["1"; "a"; "b"] 2 tab 5 = Raise IndexError.
Proof.
  assert (H1 : 0 ≤ 2 < Z.of_nat (length ["1"; "a"; "b"])) by (cbn; lia).
  assert (H2 : Z.of_nat (length ["1"; "a"; "b"]) ≤ 5) by (cbn; lia).
  exact (proj1 (unsplit_field_index_error ["1"; "a"; "b"] 2 tab 5 [] []
                  H1 H2)).
Defined.

(** X7.  Column 0 cannot be the text column: [custom_reader] takes
    [text_col = 0] as no text column.  With no text column or column 0, a
    row with more fields than the column count is not merged; it is
    dropped with a debug record and the record being accumulated is left
    as it is. *)
Theorem reader_skips_overflow_without_text_col (n : nat) (d : ascii)
    (tc : option Z) (row0 : row) (rest : list row) (real_row : row) :
  tc = None ∨ tc = Some 0 →
  (1 ≤ n)%nat → (n < length row0)%nat →
  reader_loop (Z.of_nat n) d tc (row0 :: rest) real_row
  = emit (Log (DEBUG, MsgRowSkipped row0))
      (reader_loop (Z.of_nat n) d tc rest real_row).
Proof.
  intros Htc Hn Hlen. rewrite reader_loop_cons.
  assert (regroup (Z.of_nat n) d tc row0 = Ok row0) as ->.
  { by destruct Htc as [-> | ->]. }
  destruct (Z.eqb_spec (Z.of_nat (length row0)) (Z.of_nat n)); [lia|].
  destruct (Nat.eqb_spec (length row0) 1); [lia|].
  destruct row0; [cbn in Hlen; lia|]. done.
Qed.

Lemma reader_skips_overflow_without_text_col_witness :
  custom_reader ["1" +:+ String tab "a";
                 "2" +:+ String tab "b" +:+ String tab "c"] tab (Some 0)
  = ([Log (DEBUG, MsgRowSkipped ["2"; "b"; "c"]); Yield ["1"; "a"]], None).
Proof.
  unfold custom_reader. cbn [fmap list_fmap].
  change (csv_parse_line tab ("1" +:+ String tab "a")) with ["1"; "a"].
  change (csv_parse_line tab ("2" +:+ String tab "b" +:+ String tab "c"))
    with ["2"; "b"; "c"].
  rewrite reader_loop_cons. cbn [regroup text_col_set Z.eqb].
  change (Z.of_nat (length ["1"; "a"])) with (Z.of_nat 2).
  rewrite (reader_skips_overflow_without_text_col 2 tab (Some 0)
             ["2"; "b"; "c"] [] ["1"; "a"]); [done|by right|lia|cbn; lia].
Defined.

(** ** [get_mapped_fields] *)

Section MappingFacts.
Context `{!Platform}.
Implicit Types (cols : list Z) (mapped : list (option string)).

Lemma all_with_empty mapped (i : nat) :
  mapped !! i = Some (Some EmptyString) → all mapped = false.
Proof.
  unfold all. revert i. induction mapped as [|v vs IH]; intros [|i] Hi;
    cbn in *; [done|done| |].
  - by injection Hi as ->.
  - rewrite (IH i Hi). apply andb_false_r.
Qed.

Lemma mapped_loop_ok (row0 : list string) cols index (int_key : bool) acc l mapped :
  mapped_loop row0 cols index int_key acc = (l, Ok mapped) →
  ∃ tail, mapped = acc ++ tail ∧ length tail = length cols
          ∧ ∀ i col, cols !! i = Some col → Z.of_nat (length row0) ≤ col →
                     tail !! i = Some (Some EmptyString).
Proof.
  revert acc l. induction cols as [|col cols IH]; intros acc l Hloop.
  - cbn in Hloop. injection Hloop as _ <-. exists []. by rewrite app_nil_r.
  - cbn [mapped_loop] in Hloop.
    destruct (Z.gtb_spec (Z.of_nat (length row0)) col) as [Hin|Hout].
    + assert (Hnext : ∃ v l', mapped_loop row0 cols index int_key (acc ++ [v])
                              = (l', Ok mapped)).
      { destruct (py_index row0 col ≫= _) as [val|]; [|done].
        destruct (index_set index) as [dict|]; [|by eauto].
        destruct int_key; [|by eauto].
        destruct (py_int val); [by eauto|done]. }
      destruct Hnext as (v & l' & Hnext).
      destruct (IH _ _ Hnext) as (tail & -> & Hlen & Hmiss).
      exists (v :: tail). rewrite <- app_assoc. split; [done|].
      split; [cbn; by rewrite Hlen|].
      intros [|i] col' Hcol Hle; cbn in *; [|by eapply Hmiss].
      injection Hcol as ->. lia.
    + destruct (mapped_loop row0 cols index int_key (acc ++ [Some EmptyString]))
        as [l' r] eqn:Hnext.
      injection Hloop as _ ->.
      destruct (IH _ _ Hnext) as (tail & -> & Hlen & Hmiss).
      exists (Some EmptyString :: tail). rewrite <- app_assoc.
      split; [done|]. split; [cbn; by rewrite Hlen|].
      intros [|i] col' Hcol Hle; cbn in *; [done|by eapply Hmiss].
Qed.

(** X8.  When [get_mapped_fields] returns, it returns one value for each
    requested column, in the order requested, whatever the index and
    [int_key]. *)
Theorem mapped_fields_one_per_column (row0 : list string) cols index
    (int_key : bool) l mapped :
  get_mapped_fields row0 cols index int_key = (l, Ok mapped) →
  length mapped = length cols.
Proof.
  intros Hget. destruct (mapped_loop_ok _ _ _ _ _ _ _ Hget)
    as (tail & -> & Hlen & _).
  done.
Qed.

(** X9.  A requested column at or past the end of the row gets the empty
    string, so [all] of the mapped fields is false and [split] would not
    route the row, whatever the index and [int_key] and whatever the
    other columns give. *)
Theorem missing_column_not_routed (row0 : list string) cols index (int_key : bool)
    (col : Z) l mapped :
  col ∈ cols → Z.of_nat (length row0) ≤ col →
  get_mapped_fields row0 cols index int_key = (l, Ok mapped) →
  all mapped = false.
Proof.
  intros [i Hi]%list_elem_of_lookup Hle Hget.
  destruct (mapped_loop_ok _ _ _ _ _ _ _ Hget) as (tail & -> & _ & Hmiss).
  apply (all_with_empty _ i). cbn. by eapply Hmiss.
Qed.

Lemma mapped_loop_no_index (row0 : list string) cols index (int_key : bool) acc :
  index_set index = None →
  Forall (λ col, 0 ≤ col) cols →
  mapped_loop row0 cols index int_key acc
  = (omap (λ col, if Z.of_nat (length row0) >? col then None
                  else Some (DEBUG, MsgNoColumn row0 col)) cols,
     Ok (acc ++ ((λ col, Some (default EmptyString (row0 !! Z.to_nat col)))
                 <$> cols))).
Proof.
  intros Hidx Hcols. revert acc.
  induction Hcols as [|col cols Hcol _ IH]; intros acc.
  - cbn. by rewrite app_nil_r.
  - cbn [mapped_loop omap list_omap fmap list_fmap]. unfold row in *.
    destruct (Z.gtb_spec (Z.of_nat (length row0)) col) as [Hin|Hout].
    + rewrite py_index_inside by lia. cbn [mbind option_bind].
      destruct (lookup_lt_is_Some_2 row0 (Z.to_nat col)) as [val Hval];
        [lia|].
      rewrite Hval, Hidx. cbv beta iota. rewrite IH. cbn.
      by rewrite <- app_assoc.
    + rewrite IH. rewrite (lookup_ge_None_2 row0 (Z.to_nat col)) by lia.
      cbn. by rewrite <- app_assoc.
Qed.

(** X10.  Without an index, and for column numbers counted from the
    start, the mapped fields are the fields of the row at the requested
    columns, the empty string standing for a column the row does not
    have; one debug record is logged for each such column, and nothing is
    raised. *)
Theorem mapped_fields_without_index (row0 : list string) cols (int_key : bool) :
  Forall (λ col, 0 ≤ col) cols →
  get_mapped_fields row0 cols None int_key
  = (omap (λ col, if Z.of_nat (length row0) >? col then None
                  else Some (DEBUG, MsgNoColumn row0 col)) cols,
     Ok ((λ col, Some (default EmptyString (row0 !! Z.to_nat col))) <$> cols)).
Proof.
  intros Hcols. unfold get_mapped_fields.
  by rewrite mapped_loop_no_index.
Qed.

(** X11.  An empty dictionary given as index counts as no index: the raw
    field values are returned, and with [int_key] no value is converted,
    so none can raise [ValueError]. *)
Theorem mapped_fields_empty_index (row0 : list string) cols (int_key : bool) :
  get_mapped_fields row0 cols (Some ∅) int_key
  = get_mapped_fields row0 cols None false.
Proof.
  unfold get_mapped_fields. generalize (@nil (option string)).
  induction cols as [|col cols IH]; intros acc; [done|].
  cbn [mapped_loop].
  assert (index_set (Some (∅ : index_dict)) = None) as ->.
  { unfold index_set. by rewrite decide_True. }
  cbn [index_set].
  destruct (Z.of_nat (length row0) >? col); [|by rewrite IH].
  destruct (py_index row0 col ≫= _); [|done]. apply IH.
Qed.

(** X12.  With an index that is not empty, each requested column that the
    row has is looked up in the index under its field value, or with
    [int_key] under the integer the value reads as; a key the index does
    not have gives [None].  Nothing is logged. *)
Theorem mapped_fields_with_index (row0 : list string) cols (dict : index_dict)
    (int_key : bool) (keys : list (string + Z)) :
  dict ≠ ∅ →
  Forall2 (λ col key, 0 ≤ col
                      ∧ (row0 !! Z.to_nat col) ≫= index_key int_key = Some key)
    cols keys →
  get_mapped_fields row0 cols (Some dict) int_key
  = ([], Ok ((dict !!.) <$> keys)).
Proof.
  intros Hdict Hkeys. unfold get_mapped_fields.
  change ((dict !!.) <$> keys) with ([] ++ ((dict !!.) <$> keys)).
  generalize (@nil (option string)).
  induction Hkeys as [|col key cols keys [Hcol Hkey] _ IH]; intros acc.
  - cbn. by rewrite app_nil_r.
  - cbn [mapped_loop]. unfold row in *.
    destruct (row0 !! Z.to_nat col) as [val|] eqn:Hval; [|done].
    cbn in Hkey. apply lookup_lt_Some in Hval as Hlt.
    destruct (Z.gtb_spec (Z.of_nat (length row0)) col); [|lia].
    rewrite py_index_inside by lia. cbn [mbind option_bind]. rewrite Hval.
    assert (index_set (Some dict) = Some dict) as ->.
    { unfold index_set. by rewrite decide_False. }
    unfold index_key in Hkey. cbv beta iota. destruct int_key.
    + destruct (py_int val) as [z|]; [|done]. injection Hkey as <-.
      rewrite IH. cbn. by rewrite <- app_assoc.
    + injection Hkey as <-. rewrite IH. cbn. by rewrite <- app_assoc.
Qed.

(** X13.  With an index that is not empty and [int_key], a field value
    that [int] rejects makes [get_mapped_fields] raise [ValueError]. *)
Theorem mapped_fields_value_error (row0 : list string) (col : Z) cols
    (dict : index_dict) (val : string) :
  dict ≠ ∅ → 0 ≤ col →
  row0 !! Z.to_nat col = Some val → py_int val = None →
  (get_mapped_fields row0 (col :: cols) (Some dict) true).2 = Raise ValueError.
Proof.
  intros Hdict Hcol Hval Hint. unfold get_mapped_fields. cbn [mapped_loop].
  unfold row in *. apply lookup_lt_Some in Hval as Hlt.
  destruct (Z.gtb_spec (Z.of_nat (length row0)) col); [|lia].
  rewrite py_index_inside by lia. cbn [mbind option_bind].
  rewrite Hval.
  assert (index_set (Some dict) = Some dict) as ->.
  { unfold index_set. by rewrite decide_False. }
  cbv beta iota. by rewrite Hint.
Qed.
End MappingFacts.

Lemma mapped_fields_one_per_column_witness :
  length [Some "en"; Some EmptyString] = length [0; 5].
Proof.
  apply (mapped_fields_one_per_column ["en"; "1"] [0; 5] None false
           [(DEBUG, MsgNoColumn ["en"; "1"] 5)]).
  vm_compute. reflexivity.
Defined.

Lemma missing_column_not_routed_witness :
  all [Some "en"; Some EmptyString] = false.
Proof.
  apply (missing_column_not_routed ["en"; "1"] [0; 5] None false 5
           [(DEBUG, MsgNoColumn ["en"; "1"] 5)]).
  - apply list_elem_of_In. cbn. auto.
  - cbn. lia.
  - vm_compute. reflexivity.
Defined.

Lemma mapped_fields_without_index_witness :
  get_mapped_fields ["en"; "1"] [1; 2] None false
  = ([(DEBUG, MsgNoColumn ["en"; "1"] 2)], Ok [Some "1"; Some EmptyString]).
Proof.
  assert (Hcols : Forall (λ col, 0 ≤ col) [1; 2])
    by (repeat constructor; lia).
  exact (mapped_fields_without_index ["en"; "1"] [1; 2] false Hcols).
Defined.

Lemma mapped_fields_with_index_witness :
  let dict : index_dict := {[ inr 7 := "eng" ]} in
  get_mapped_fields ["7"; "8"] [0; 1] (Some dict) true
  = ([], Ok [Some "eng"; None]).
Proof.
  intros dict.
  assert (Hdict : dict ≠ ∅) by (vm_compute; discriminate).
  assert (Hkeys : Forall2 (λ col key, 0 ≤ col
            ∧ (["7"; "8"] !! Z.to_nat col) ≫= index_key true = Some key)
            [0; 1] [inr 7; inr 8]).
  { repeat constructor; vm_compute; congruence. }
  exact (mapped_fields_with_index ["7"; "8"] [0; 1] dict true [inr 7; inr 8]
           Hdict Hkeys).
Defined.

Lemma mapped_fields_value_error_witness :
  let dict : index_dict := {[ inr 7 := "eng" ]} in
  (get_mapped_fields ["x"] [0] (Some dict) true).2 = Raise ValueError.
Proof.
  intros dict.
  apply (mapped_fields_value_error ["x"] 0 [] dict "x").
  - vm_compute. discriminate.
  - lia.
  - reflexivity.
  - vm_compute. reflexivity.
Defined.

(** ** [get_byte_size_of_row] *)

Lemma str_join_length (d : ascii) (r : list string) :
  String.length (str_join (str1 d) r)
  = (sum_list (String.length <$> r) + (length r - 1))%nat.
Proof.
  induction r as [|f r IH]; [done|].
  destruct r as [|g r]; [cbn; lia|].
  rewrite str_join_cons by done.
  rewrite !string_length_app, IH. cbn. lia.
Qed.

(** X14.  The byte size of a row is the bytes of its fields plus one for
    each field (the delimiters between them and the line end), and 1 for
    the empty row.  For the row the csv reader makes of a physical line
    it is the length of the line plus one, so the sizes [split] reports
    to the progress bar for rows read unchanged add up to the bytes
    read. *)
Theorem byte_size_of_row (d : ascii) :
  (∀ r : list string,
     get_byte_size_of_row r d
     = Z.of_nat (sum_list (String.length <$> r) + Nat.max 1 (length r)))
  ∧ (∀ line,
       get_byte_size_of_row (csv_parse_line d line) d
       = Z.of_nat (String.length line) + 1).
Proof.
  split.
  - intros r. unfold get_byte_size_of_row.
    rewrite string_length_app, str_join_length. cbn. destruct r; cbn; lia.
  - intros line. unfold get_byte_size_of_row. rewrite string_length_app.
    destruct line as [|c line]; [done|].
    unfold csv_parse_line. rewrite str_join_split. cbn. lia.
Qed.

(** ** Out file names *)

Lemma str_last_app (s t : string) :
  t ≠ EmptyString → str_last (s +:+ t) = str_last t.
Proof.
  intros Ht. induction s as [|c s IH]; [done|].
  rewrite string_app_cons. cbn [str_last]. rewrite IH.
  destruct t as [|a t]; [done|]. cbn. by destruct (str_last t).
Qed.

Lemma part_name_last (k : string) : str_last (Buffer.part_name k) = Some "t"%char.
Proof. unfold Buffer.part_name. by rewrite str_last_app. Qed.

Lemma out_filename_last (df : DataFile.t) (mapped : list (option string))
    (k : string) :
  DataFile._get_out_filename df mapped = Ok k → str_last k = Some "v"%char.
Proof.
  unfold DataFile._get_out_filename. destruct (all_str mapped); [|done].
  cbn. intros [= <-]. rewrite <- !string_app_assoc.
  destruct (Ascii.eqb _ _); by rewrite str_last_app.
Qed.

(** X15.  An out file name made by [_get_out_filename] is not empty and
    ends in [tsv] or [csv], never in [.part]: it is never the name of an
    in-progress file, and any two such names are independent, so what
    [Buffer] does for one of them never touches the out file or the
    in-progress file of another. *)
Theorem out_filenames_independent (df df' : DataFile.t)
    (mapped mapped' : list (option string)) (k k' : string) :
  DataFile._get_out_filename df mapped = Ok k →
  DataFile._get_out_filename df' mapped' = Ok k' →
  k ≠ EmptyString ∧ (∀ n, k ≠ Buffer.part_name n) ∧ independent k k'.
Proof.
  intros Hk%out_filename_last Hk'%out_filename_last.
  assert (Hpart : ∀ m n, str_last m = Some "v"%char → m ≠ Buffer.part_name n).
  { intros m n Hm ->. by rewrite part_name_last in Hm. }
  split; [by intros ->|]. split; [intros n; by apply Hpart|].
  split; [by apply Hpart|]. intros Heq. by apply (Hpart k k' Hk).
Qed.

Lemma out_filenames_independent_witness :
  independent "en-fr_links.tsv" "de_links.tsv".
Proof.
  apply (out_filenames_independent (DataFile.Make "links.csv" tab None)
           (DataFile.Make "links.csv" tab None)
           [Some "en"; Some "fr"] [Some "de"]); reflexivity.
Defined.

(** ** The buffer: whatever the outcomes of the writes *)

Section BufferAnyIo.
Context `{!Platform}.
Implicit Types (s : world * Buffer.t) (k n : string) (elt : row).

Lemma save_get_other k k' end_ s :
  k' ≠ k →
  dict_get k (Buffer._data (Buffer._save k' end_ s).2)
  = dict_get k (Buffer._data s.2).
Proof.
  intros Hne. destruct s as [w b]. unfold Buffer._save.
  destruct (dict_get k' (Buffer._data b)); [|done].
  destruct (next_io w) as [[| |written] w1]; cbn; [|done..].
  by rewrite dict_get_alter, decide_False.
Qed.

Lemma save_dm k end_ s :
  Buffer._dm (Buffer._save k end_ s).2 = Buffer._dm s.2.
Proof.
  destruct s as [w b]. unfold Buffer._save.
  destruct (dict_get k (Buffer._data b)); [|done].
  by destruct (next_io w) as [[| |written] w1].
Qed.

Lemma add_dm elt k s :
  Buffer._dm (Buffer.add elt k s).2 = Buffer._dm s.2.
Proof.
  unfold Buffer.add. destruct (appended_frame elt k s) as (_ & Hdm & _).
  destruct (_ >? _); by rewrite ?save_dm.
Qed.

(** What a flush inside [add] does to the queue and the in-progress
    file: it either writes the whole queue and empties it, or leaves the
    queue as it is and the lines of the file in place. *)
Lemma save_add_cases k s (q : list row) :
  dict_get k (Buffer._data s.2) = Some q →
  let s' := Buffer._save k false s in
  (Buffer.queue k s'.2 = []
   ∧ files s'.1 !! Buffer.part_name k
     = Some (default [] (files s.1 !! Buffer.part_name k)
             ++ (writerow (Buffer._dm s.2) <$> q)))
  ∨ (Buffer.queue k s'.2 = q
     ∧ ∀ content, files s.1 !! Buffer.part_name k = Some content →
         ∃ more, files s'.1 !! Buffer.part_name k = Some (content ++ more)).
Proof.
  intros Hq. destruct s as [w b]. cbn in Hq. cbn zeta.
  unfold Buffer._save, Buffer.queue. rewrite Hq.
  pose proof (next_io_files w) as Hfs.
  destruct (next_io w) as [[| |written] w1]; cbn in *; rewrite ?Hfs.
  - left. by rewrite dict_get_alter, decide_True, Hq, lookup_insert_eq.
  - right. rewrite Hq. split; [done|]. intros content ->.
    exists []. by rewrite app_nil_r.
  - right. rewrite Hq. split; [done|]. intros content ->.
    rewrite lookup_insert_eq. by eexists.
Qed.

Lemma none_lost_add_other k k' rs elt s :
  k' ≠ k → independent k k' →
  none_lost k rs s → none_lost k rs (Buffer.add elt k' s).
Proof.
  intros Hne [Hind1 Hind2] Hkept r Hr.
  assert (Hq : Buffer.queue k (Buffer.add elt k' s).2 = Buffer.queue k s.2).
  { unfold Buffer.queue, Buffer.add. destruct (_ >? _);
      rewrite ?save_get_other by done; by rewrite appended_get, decide_False. }
  assert (Hf : files (Buffer.add elt k' s).1 !! Buffer.part_name k
               = files s.1 !! Buffer.part_name k).
  { unfold Buffer.add. destruct (appended_files elt k' s) as [Hfiles _].
    destruct (_ >? _).
    - rewrite save_add_files_frame by (by intros ?%part_name_inj).
      rewrite Hfiles. apply first_touch_files_other. by intros Heq.
    - rewrite Hfiles. apply first_touch_files_other. by intros Heq. }
  rewrite Hq, Hf, add_dm. by apply Hkept.
Qed.

Lemma none_lost_add_self k rs elt s :
  none_lost k rs s → none_lost k (rs ++ [elt]) (Buffer.add elt k s).
Proof.
  intros Hkept.
  assert (Hkept1 : none_lost k (rs ++ [elt]) (Buffer.appended elt k s)).
  { intros r Hr. rewrite appended_queue.
    destruct (appended_files elt k s) as [-> _].
    destruct (appended_frame elt k s) as (_ & -> & _).
    rewrite (proj1 (first_touch_files_other k _ s (part_name_ne k))).
    apply elem_of_app in Hr as [Hr| ->%list_elem_of_singleton].
    - destruct (Hkept r Hr) as [?|?]; [left|by right].
      apply elem_of_app. by left.
    - left. apply elem_of_app. right. by apply list_elem_of_singleton. }
  unfold Buffer.add. destruct (_ >? _); [|done].
  pose proof (appended_get elt k k s) as Hget.
  rewrite decide_True in Hget by done.
  destruct (save_add_cases k _ _ Hget) as [[Hq Hf]|[Hq Hf]];
    intros r Hr; rewrite save_dm.
  - right. rewrite Hf. eexists. split; [done|].
    destruct (Hkept1 r Hr) as [Hin|(content & Hc & Hin)].
    + apply elem_of_app. right. apply list_elem_of_fmap.
      exists r. split; [done|]. unfold Buffer.queue in Hin.
      by rewrite Hget in Hin.
    + rewrite Hc. apply elem_of_app. by left.
  - destruct (Hkept1 r Hr) as [Hin|(content & Hc & Hin)].
    + left. rewrite Hq. unfold Buffer.queue in Hin. by rewrite Hget in Hin.
    + right. destruct (Hf content Hc) as [more ->].
      eexists. split; [done|]. apply elem_of_app. by left.
Qed.

(** X16.  Before [clear], no record is lost, whatever the outcomes of the
    writes: after any run of [add] calls whose destinations are
    independent of [k], every record the run added to [k] is still in
    the queue of [k] or has its line in the in-progress file of [k]. *)
Theorem adds_lose_nothing k (w0 : world) (dm : ascii) (max_size : Z)
    (calls : list (row * string)) :
  Forall (λ call, call.2 = k ∨ independent k call.2) calls →
  none_lost k (rows_for k calls)
    (Buffer.adds calls (w0, Buffer.init w0 dm max_size)).
Proof.
  induction calls as [|[elt k'] calls IH] using rev_ind.
  - intros _ r Hr. by apply elem_of_nil in Hr.
  - intros [Hcalls Hcall%Forall_inv]%Forall_app.
    rewrite rows_for_snoc, adds_snoc. cbn in Hcall.
    destruct (decide (k' = k)) as [->|Hne].
    + by apply none_lost_add_self, IH.
    + rewrite app_nil_r. destruct Hcall as [?|Hind]; [done|].
      by apply none_lost_add_other, IH.
Qed.

(** X17.  [out_filenames] lists every destination of the run once, in the
    order of the first [add] for each, whatever the outcomes of the
    writes; after [clear] it is empty. *)
Theorem out_filenames_first_seen (w0 : world) (dm : ascii) (max_size : Z)
    (calls : list (row * string)) :
  let s := Buffer.adds calls (w0, Buffer.init w0 dm max_size) in
  Buffer.out_filenames s.2 = first_seen calls.*2
  ∧ NoDup (Buffer.out_filenames s.2)
  ∧ (∀ k, k ∈ Buffer.out_filenames s.2 ↔ k ∈ calls.*2)
  ∧ Buffer.out_filenames (Buffer.clear s).2 = [].
Proof.
  cbn zeta. split; [|split; [|split]].
  - unfold Buffer.out_filenames, first_seen.
    induction calls as [|[elt k] calls IH] using rev_ind; [done|].
    rewrite adds_snoc, add_keys, fmap_app.
    change ([(elt, k)].*2) with [k]. rewrite foldl_snoc.
    by rewrite IH.
  - apply adds_keys.
  - apply adds_keys.
  - unfold Buffer.out_filenames. by rewrite clear_data.
Qed.

(** X18.  An [add] that leaves the queue within the threshold, for a
    destination already seen or one whose out file was not in the
    directory at construction, does nothing outside the buffer: no file
    is written or removed, nothing is logged, and the record is at the
    end of the queue. *)
Theorem add_below_threshold k elt s :
  getsizeof (Buffer.queue k s.2 ++ [elt]) ≤ Buffer._max s.2 →
  is_Some (dict_get k (Buffer._data s.2)) ∨ k ∉ Buffer._fps s.2 →
  (Buffer.add elt k s).1 = s.1
  ∧ Buffer.queue k (Buffer.add elt k s).2 = Buffer.queue k s.2 ++ [elt].
Proof.
  intros Hsize Hseen. unfold Buffer.add.
  destruct (appended_frame elt k s) as (Hmax & _).
  rewrite appended_queue, Hmax.
  destruct (Z.gtb_spec (getsizeof (Buffer.queue k s.2 ++ [elt]))
              (Buffer._max s.2)); [lia|].
  split; [|apply appended_queue].
  unfold Buffer.appended.
  assert (Hw : (Buffer.first_touch k s).1 = s.1).
  { destruct s as [w b]. unfold Buffer.first_touch. cbn in *.
    destruct (dict_get k (Buffer._data b)); [done|].
    destruct Hseen as [[? ?]|Hout]; [done|]. by rewrite decide_False. }
  by destruct (Buffer.first_touch k s).
Qed.

(** X19.  The flush of [clear] for a destination with a name that is not
    empty, when it ends well, appends the queue to the in-progress file
    and renames the file to the destination name itself, whatever dots
    the name holds: the out file holds what the in-progress file held and
    then the queue, the in-progress file is gone, the queue is empty and
    no other file has changed. *)
Theorem finalize_flush_renames k s (q : list row) :
  k ≠ EmptyString → io_ok s.1 →
  dict_get k (Buffer._data s.2) = Some q →
  let s' := Buffer._save k true s in
  files s'.1 !! k
  = Some (default [] (files s.1 !! Buffer.part_name k)
          ++ (writerow (Buffer._dm s.2) <$> q))
  ∧ files s'.1 !! Buffer.part_name k = None
  ∧ Buffer.queue k s'.2 = []
  ∧ ∀ n, n ≠ k → n ≠ Buffer.part_name k → files s'.1 !! n = files s.1 !! n.
Proof.
  intros Hk Hio Hq. cbn zeta.
  rewrite !(save_ok_files_end k _ s q Hio Hq), stem_part_name by done.
  rewrite decide_True by done.
  rewrite decide_False by apply part_name_ne. rewrite decide_True by done.
  split; [done|]. split; [done|]. split.
  - unfold Buffer.queue. rewrite save_ok_get by eauto.
    by rewrite decide_True.
  - intros n Hn Hp. rewrite (save_ok_files_end k n s q Hio Hq).
    rewrite stem_part_name by done. by rewrite !decide_False.
Qed.

End BufferAnyIo.

Lemma adds_lose_nothing_witness :
  let k := "en-fr_links.tsv" in
  let w0 := World ∅ [IoWriteError 1; IoOpenError] [] in
  let calls := [(["1"; "2"], k); (["3"; "4"], "de_links.tsv"); (["5"; "6"], k)] in
  none_lost k [["1"; "2"]; ["5"; "6"]] (Buffer.adds calls (w0, Buffer.init w0 tab 0)).
Proof.
  intros k w0 calls.
  apply (adds_lose_nothing k w0 tab 0 calls).
  constructor; [by left|]. constructor; [|by repeat constructor].
  right. split; vm_compute; discriminate.
Defined.

Lemma add_below_threshold_witness :
  let w0 := World ∅ [] [] in
  let s := (w0, Buffer.init w0 tab Buffer.default_max_size) in
  (Buffer.add ["1"; "2"] "en-fr_links.tsv" s).1 = w0.
Proof.
  intros w0 s.
  apply (add_below_threshold "en-fr_links.tsv" ["1"; "2"] s).
  - vm_compute. discriminate.
  - right. apply not_elem_of_empty.
Defined.

Lemma finalize_flush_renames_witness :
  let k := "a.b.tsv" in
  let w0 := World {[ Buffer.part_name k := ["0"] ]} [] [] in
  let s := (w0, Buffer.Make ∅ tab 10 [(k, [["1"; "2"]])]) in
  files (Buffer._save k true s).1 !! k = Some ["0"; "1" +:+ String tab "2"].
Proof.
  intros k w0 s.
  assert (Hk : k ≠ EmptyString) by discriminate.
  assert (Hio : io_ok s.1) by constructor.
  assert (Hq : dict_get k (Buffer._data s.2) = Some [["1"; "2"]])
    by reflexivity.
  exact (proj1 (finalize_flush_renames k s [["1"; "2"]] Hk Hio Hq)).
Defined.


(** ** The text column read back *)




(** ** [Links] *)

Section LinksFacts.
Context `{!Platform}.








(** X25.  [ids] of a links table whose file is missing: two empty sets,
    no exception; the absence is logged, with a warning. *)
Theorem links_ids_missing (lk : Links.t) (fs : gmap string (list string)) :
  fs !! Links.filename lk = None →
  Links.ids lk fs
  = ([(DEBUG, MsgDatafileNotFound (Links.filename lk));
      (WARNING, MsgNoLocalData Links._table (Links._src_lg lk)
                  (Links._tgt_lg lk))],
     Ok (∅, ∅)).
Proof.
  intros Hmissing. unfold Links.ids, Links.iter, DataFile.iter.
  cbn [DataFile._fp]. by rewrite Hmissing.
Qed.
End LinksFacts.




Lemma links_ids_missing_witness :
  (Links.ids (Links.Make "eng" "fra") ∅).2 = Ok (∅, ∅).
Proof.
  by rewrite (links_ids_missing (Links.Make "eng" "fra") ∅ (lookup_empty _)).
Defined.

(** ** [split], whatever the file *)

Section SplitOutcome.
Context `{!Platform}.

Lemma split_loop_no_yield (df : DataFile.t) (events : list (event row))
    (ending : option exn) (s : world * Buffer.t) :
  yields (events, ending) = [] →
  (DataFile.split_loop df events ending s).2 = ending.
Proof.
  revert s. induction events as [|[row0|l] events IH]; intros s Hy; cbn.
  - done.
  - done.
  - by apply IH.
Qed.

(** X26.  [split] never writes, removes or renames a file.  On a source
    file that is missing it logs the absence and raises [NoDataFile] to
    its caller; as soon as the reader yields a record it raises
    [TypeError]; and when the reader yields no record, it ends as the
    reader ends. *)
Theorem split_outcome (df : DataFile.t) (columns : list Z)
    (index : option index_dict) (int_key : bool) (w : world) :
  let r := DataFile.split df columns index int_key w in
  let reading := DataFile.iter df (files w) in
  files r.1 = files w
  ∧ (files w !! DataFile._fp df = None →
     r = (World (files w) (pending_io w)
            (log w ++ [(INFO, MsgSplitting (DataFile.name df));
                       (DEBUG, MsgDatafileNotFound (DataFile._fp df))]),
          Some NoDataFile))
  ∧ (yields reading ≠ [] → r.2 = Some TypeError)
  ∧ (yields reading = [] → r.2 = reading.2).
Proof.
  cbn zeta. split; [apply split_files|]. split; [|split].
  - intros Hmissing. unfold DataFile.split, DataFile.iter.
    cbn [files add_log]. rewrite Hmissing. cbn.
    unfold add_log. cbn. by rewrite <- app_assoc.
  - apply split_raises.
  - intros Hy. unfold DataFile.split.
    set (w1 := add_log (INFO, MsgSplitting (DataFile.name df)) w).
    change (files w1) with (files w).
    pose proof (split_loop_no_yield df (DataFile.iter df (files w)).1
      (DataFile.iter df (files w)).2
      (w1, Buffer.init w1 (DataFile._dm df) Buffer.default_max_size)) as Hr.
    rewrite <- surjective_pairing in Hr. specialize (Hr Hy).
    destruct (DataFile.split_loop _ _ _ _) as [[w2 b2] [e|]]; cbn in *;
      congruence.
Qed.
End SplitOutcome.

Lemma split_outcome_witness :
  let df := DataFile.Make "links.csv" tab (Some (-1)) in
  DataFile.split df [0] None false (World ∅ [] [])
  = (World ∅ [] [(INFO, MsgSplitting "links.csv");
                 (DEBUG, MsgDatafileNotFound "links.csv")],
     Some NoDataFile).
Proof.
  intros df.
  exact (proj1 (proj2 (split_outcome df [0] None false (World ∅ [] [])))
           (lookup_empty _)).
Defined.

(** X27.  The out file [split] names for a row of the links table mapped
    to a source and a target language is the file [Links] reads for this
    pair of languages: for a tab-separated source file with stem
    [links], [_get_out_filename] on the two languages gives
    [Links.filename]. *)
Theorem links_filename_matches_split (df : DataFile.t)
    (source_language target_language : string) :
  DataFile.stem df = Links._table →
  DataFile._dm df = tab →
  DataFile._get_out_filename df [Some source_language; Some target_language]
  = Ok (Links.filename (Links.Make source_language target_language)).
Proof.
  intros Hstem Hdm. unfold DataFile._get_out_filename, Links.filename.
  rewrite Hstem, Hdm. cbn. f_equal.
  by rewrite !string_app_assoc.
Qed.

Lemma links_filename_matches_split_witness :
  DataFile._get_out_filename (DataFile.Make "links.csv" tab (Some (-1)))
    [Some "eng"; Some "fra"]
  = Ok "eng-fra_links.tsv".
Proof.
  apply (links_filename_matches_split
           (DataFile.Make "links.csv" tab (Some (-1))) "eng" "fra");
    reflexivity.
Defined.

(** X28.  A file that starts with a blank line gives no record at all:
    the column count is then 0, no row with fields can start a record,
    and nothing is ever yielded, whatever the text column and whatever
    follows. *)
Theorem reader_blank_first_line (lines : list string) (d : ascii)
    (tc : option Z) :
  yields (custom_reader (EmptyString :: lines) d tc) = [].
Proof.
  rewrite custom_reader_cons. cbn [csv_parse_line length].
  generalize (csv_parse_line d <$> EmptyString :: lines). intros rows.
  induction rows as [|row0 rows IH]; [done|].
  rewrite reader_loop_cons.
  destruct (regroup (Z.of_nat 0) d tc row0) as [row1|e]; [|done].
  destruct (Z.eqb_spec (Z.of_nat (length row1)) (Z.of_nat 0)) as [Hlen|Hlen].
  - cbn [nonempty]. destruct row1; [done|cbn in Hlen; lia].
  - cbn [nonempty]. rewrite !andb_false_r. exact IH.
Qed.
